(** * Water-rate simulator: pricing and demand engine

    A shallow embedding of the tiered-rate billing calculator, the
    fixed-point equilibrium solver, the Monte Carlo engine, the decile
    aggregator and the tier helpers of the charts, followed by the
    properties stated about them.

    Numbers.  A JavaScript [number] is modelled as an exact rational ([Q]):
    arithmetic is exact, there is no NaN and no infinity.  The one place
    where the code uses [Number.POSITIVE_INFINITY] (an unbounded tier) is
    modelled with [option Q], [None] standing for the infinite bound.  The
    code never divides by a quantity that can be zero (every such division
    is guarded), so [Qdiv] agrees with [/] on every path taken.
    [Math.pow], [Math.exp] and [Math.log] have no rational counterpart and
    are taken as operations of a class [MathOps]; properties that need a
    law of them say so. *)

From Stdlib Require Import QArith Qround Qabs Qminmax Qpower Lqa Lia ZArith List String Bool.
From Stdlib Require Import Sorting.Permutation Sorting.Sorted DecimalString DecimalNat.
Import ListNotations.
Open Scope Q_scope.

(** ** Number primitives *)

Class MathOps : Type := {
  Math_pow : Q -> Q -> Q;
  Math_exp : Q -> Q;
  Math_log : Q -> Q
}.

(** [Math.pow(x, ±0)] is [1] for every [x]. *)
Definition pow_zero_law (M : MathOps) : Prop :=
  forall x e : Q, e == 0 -> Math_pow x e == 1.

Definition Qlt_bool (x y : Q) : bool := negb (Qle_bool y x).

Definition Math_max (a b : Q) : Q := if Qle_bool a b then b else a.
Definition Math_min (a b : Q) : Q := if Qle_bool a b then a else b.
Definition Math_abs (a : Q) : Q := Qabs a.
Definition Math_floor (a : Q) : Z := Qfloor a.
Definition Math_ceil (a : Q) : Z := Qceiling a.

(** [Array.prototype.sort(cmp)]: a stable sort; [cmp a b <= 0] keeps [a]
    in front of [b]. *)
Fixpoint sort_insert {A : Type} (cmp : A -> A -> Q) (x : A) (l : list A) : list A :=
  match l with
  | [] => [x]
  | y :: l' => if Qle_bool (cmp x y) 0 then x :: l else y :: sort_insert cmp x l'
  end.

Definition Array_sort {A : Type} (cmp : A -> A -> Q) (l : list A) : list A :=
  fold_right (sort_insert cmp) [] l.

(** [sum l] adds the elements of [l] from the left, as an accumulating loop does. *)
Definition Qsum (l : list Q) : Q := fold_left Qplus l 0.

(** A computable instance of [MathOps], exact whenever the exponent is an
    integer; it serves to run the model on concrete inputs. *)
Definition sampleMath : MathOps := {|
  Math_pow := fun x e => Qpower x (Qfloor e);
  Math_exp := fun z => 1 + z;
  Math_log := fun x => x - 1
|}.

(** ** demand.ts *)

Module Demand.

Record TierDefinition : Type := {
  lower : Q;
  upper : option Q;   (* [None] is [null]: unbounded *)
  price : Q
}.

Record BaselineAnchor : Type := {
  anchor_usage : Q;
  anchor_perceivedPrice : Q
}.

Record DemandInputs : Type := {
  connections : Q;
  elasticity : Q;
  baseFee : Q;
  input_tiers : list TierDefinition;
  baseline : option BaselineAnchor;
  billSalience : option Q
}.

Record DemandTrace : Type := {
  perConnectionUsage : Q;
  usageP5 : option Q;
  usageP95 : option Q;
  trace_marginalPrice : Q;
  trace_averagePrice : Q;
  trace_perceivedPrice : Q;
  billPerConnection : Q
}.

Record DemandResult : Type := {
  usageMG : Q;
  revenue : Q;
  volumetricBillPerConnection : Q;
  trace : DemandTrace;
  warnings : list string;
  validationMessage : option string;
  tiersUsed : list TierDefinition
}.

Record TierValidationResult : Type := {
  tiers : list TierDefinition;
  isValid : bool;
  message : option string
}.

Record UsageSolution : Type := {
  usage : Q;
  marginalPrice : Q;
  averagePrice : Q;
  perceivedPrice : Q
}.

Definition BASELINE_USAGE : Q := 7.
Definition MIN_USAGE : Q := 0.1.
Definition MAX_USAGE : Q := 60.
Definition MIN_PRICE : Q := 0.01.
Definition DEFAULT_ALPHA : Q := 0.7.
Definition DEFAULT_BILL_SALIENCE : Q := 0.05.
Definition FIXED_POINT_ITERATIONS : nat := 12.

(** [Number.parseFloat(value.toFixed(decimals))]: the nearest multiple of
    [10^-decimals], ties away from zero ([toFixed] rounds the magnitude,
    taking the larger of two equally near candidates).  The
    [Number.isFinite] guard around it always holds of a rational. *)
Definition roundTo (value : Q) (decimals : nat) : Q :=
  let scale := inject_Z (10 ^ Z.of_nat decimals)%Z in
  let n := inject_Z (Qfloor (Qabs value * scale + (1 # 2))) in
  (if Qlt_bool value 0 then - n else n) / scale.

Definition normalizeTiers (ts : list TierDefinition) : list TierDefinition :=
  Array_sort (fun a b => lower a - lower b)
    (map (fun tier =>
            {| lower := Math_max 0 (roundTo (lower tier) 4);
               upper := match upper tier with
                        | None => None
                        | Some u => Some (roundTo (Math_max u 0) 4)
                        end;
               price := Math_max 0 (roundTo (price tier) 6) |}) ts).

Definition createFallbackTier (ts : list TierDefinition) : list TierDefinition :=
  let fallbackPrice := match ts with t :: _ => price t | [] => 0 end in
  [ {| lower := 0; upper := None; price := fallbackPrice |} ].

Definition msg_empty : string := "Define at least one tier.".
Definition msg_contiguous : string :=
  "Tiers must be contiguous with no gaps or overlaps.".
Definition msg_upper : string :=
  "Each tier's upper bound must be greater than its lower bound.".
Definition msg_final : string := "The final tier must extend to infinity.".

Definition reject (all : list TierDefinition) (m : string) : TierValidationResult :=
  {| tiers := createFallbackTier all; isValid := false; message := Some m |}.

(** The [for] loop of [validateTiers]: [Some r] is an early [return r],
    [None] means the loop ran to its end.  [expectedLower] is [None] once
    it has become [Number.POSITIVE_INFINITY]. *)
Fixpoint validateLoop (all : list TierDefinition) (expectedLower : option Q)
    (rest : list TierDefinition) : option TierValidationResult :=
  match rest with
  | [] => None
  | tier :: rest' =>
      if match expectedLower with
         | Some e => Qlt_bool 0.000001 (Math_abs (lower tier - e))   (* 1e-6 *)
         | None => true
         end
      then Some (reject all msg_contiguous)
      else if match upper tier with
              | Some u => Qle_bool u (lower tier)
              | None => false
              end
      then Some (reject all msg_upper)
      else validateLoop all (upper tier) rest'
  end.

Definition validateTiers (ts : list TierDefinition) : TierValidationResult :=
  match ts with
  | [] => reject [ {| lower := 0; upper := None; price := 0 |} ] msg_empty
  | t0 :: _ =>
      match validateLoop ts (Some 0) ts with
      | Some r => r
      | None =>
          match upper (last ts t0) with
          | Some _ => reject ts msg_final
          | None => {| tiers := ts; isValid := true; message := None |}
          end
      end
  end.

Definition clampUsage (value : Q) : Q :=
  Math_min (Math_max value MIN_USAGE) MAX_USAGE.

(** The [for] loop of [computeMarginalPrice]: [Some p] is [return p]. *)
Fixpoint marginalLoop (usage : Q) (ts : list TierDefinition) : option Q :=
  match ts with
  | [] => None
  | tier :: rest =>
      if Qle_bool (lower tier) usage
         && match upper tier with
            | None => true
            | Some u => Qlt_bool usage u
            end
      then Some (price tier)
      else marginalLoop usage rest
  end.

Definition computeMarginalPrice (usage : Q) (ts : list TierDefinition) : Q :=
  match marginalLoop usage ts with
  | Some p => p
  | None => match ts with
            | [] => 0
            | t0 :: _ => price (last ts t0)
            end
  end.

(** The [for] loop of [computeVolumetricCharge], [charge] being the
    running total; both [break]s return it. *)
Fixpoint chargeLoop (usage charge : Q) (ts : list TierDefinition) : Q :=
  match ts with
  | [] => charge
  | tier :: rest =>
      if Qle_bool usage (lower tier) then charge
      else
        let span := match upper tier with
                    | Some u => Math_min usage u
                    | None => usage
                    end - lower tier in
        let charge' := if Qlt_bool 0 span then charge + span * price tier
                       else charge in
        if match upper tier with
           | Some u => Qle_bool usage u
           | None => true
           end
        then charge'
        else chargeLoop usage charge' rest
  end.

Definition computeVolumetricCharge (usage : Q) (ts : list TierDefinition) : Q :=
  chargeLoop usage 0 ts.

Definition computeAveragePrice (usage : Q) (ts : list TierDefinition) : Q :=
  if Qle_bool usage 0 then 0
  else computeVolumetricCharge usage ts / usage.

(** [alpha] and [billSalience] are optional arguments ([None] is
    [undefined]) with defaults [DEFAULT_ALPHA] and [0]. *)
Definition computePerceivedPrice (usage : Q) (ts : list TierDefinition)
    (baseFee : Q) (alpha billSalience : option Q) : Q :=
  let alpha := match alpha with Some a => a | None => DEFAULT_ALPHA end in
  let billSalience := match billSalience with Some b => b | None => 0 end in
  let marginal := computeMarginalPrice usage ts in
  let average := computeAveragePrice usage ts in
  let blended := alpha * marginal + (1 - alpha) * average in
  let baseImpact := billSalience * (baseFee / Math_max usage MIN_USAGE) in
  blended + baseImpact.

Section Solver.
Context {M : MathOps}.

(** The fixed-point loop of [solveUsage] with [n] iterations left. *)
Fixpoint solveLoop (elasticity : Q) (ts : list TierDefinition)
    (baselineUsageClamped referencePrice baseFee billSalience : Q)
    (n : nat) (usage : Q) : Q :=
  match n with
  | O => usage
  | S n' =>
      let perceivedPrice :=
        Math_max MIN_PRICE
          (computePerceivedPrice usage ts baseFee (Some DEFAULT_ALPHA) (Some billSalience)) in
      let nextUsage :=
        clampUsage (baselineUsageClamped
                    * Math_pow (perceivedPrice / referencePrice) elasticity) in
      if Qlt_bool (Math_abs (nextUsage - usage)) 0.0005 then nextUsage
      else solveLoop elasticity ts baselineUsageClamped referencePrice
             baseFee billSalience n' nextUsage
  end.

Definition solveUsage (elasticity : Q) (ts : list TierDefinition)
    (baselineUsage baselinePrice baseFee billSalience : Q) : UsageSolution :=
  let baselineUsageClamped := clampUsage baselineUsage in
  let referencePrice := Math_max MIN_PRICE baselinePrice in
  let usage := solveLoop elasticity ts baselineUsageClamped referencePrice
                 baseFee billSalience FIXED_POINT_ITERATIONS baselineUsageClamped in
  {| usage := usage;
     marginalPrice := computeMarginalPrice usage ts;
     averagePrice := computeAveragePrice usage ts;
     perceivedPrice :=
       computePerceivedPrice usage ts baseFee (Some DEFAULT_ALPHA) (Some billSalience) |}.

Definition warn_sign : string :=
  "Elasticity should be negative (e.g., −0.10 to −0.30).".
Definition warn_min : string :=
  "Usage settled at the minimum bound. Check elasticity or price inputs.".
Definition warn_max : string :=
  "Usage reached the maximum bound. Prices may be too low for this elasticity.".

(** Rationals are all finite and none is NaN, so the guards
    [Number.isFinite(inputs.elasticity) ? ... : -0.2], [inputs.baseFee || 0]
    and [inputs.connections || 0] leave their operand as it is. *)
Definition calculateDemand (inputs : DemandInputs) : DemandResult :=
  let normalizedTiers := normalizeTiers (input_tiers inputs) in
  let validation := validateTiers normalizedTiers in
  let ts := tiers validation in
  let elasticity := elasticity inputs in
  let baseFee := Math_max 0 (baseFee inputs) in
  let connections := Math_max 0 (connections inputs) in
  let billSalience := match billSalience inputs with
                      | Some b => b
                      | None => DEFAULT_BILL_SALIENCE
                      end in
  let baselineUsage := clampUsage match baseline inputs with
                                  | Some b => anchor_usage b
                                  | None => BASELINE_USAGE
                                  end in
  let baselinePerceivedPrice :=
    Math_max MIN_PRICE
      match baseline inputs with
      | Some b => anchor_perceivedPrice b
      | None => computePerceivedPrice baselineUsage ts baseFee
                  (Some DEFAULT_ALPHA) (Some billSalience)
      end in
  let usageSolution :=
    solveUsage elasticity ts baselineUsage baselinePerceivedPrice baseFee billSalience in
  let volumetricBillPerConnection := computeVolumetricCharge (usage usageSolution) ts in
  let billPerConnection := baseFee + volumetricBillPerConnection in
  let usageMG := (connections * usage usageSolution) / 1000 in
  let revenue := billPerConnection * connections in
  let warnings :=
    (if Qle_bool 0 elasticity then [warn_sign] else [])
    ++ (if Qle_bool (usage usageSolution) (MIN_USAGE + 0.001) then [warn_min]
        else if Qle_bool (MAX_USAGE - 0.001) (usage usageSolution) then [warn_max]
        else []) in
  {| usageMG := usageMG;
     revenue := revenue;
     volumetricBillPerConnection := volumetricBillPerConnection;
     trace := {| perConnectionUsage := usage usageSolution;
                 usageP5 := Some (usage usageSolution);
                 usageP95 := Some (usage usageSolution);
                 trace_marginalPrice := marginalPrice usageSolution;
                 trace_averagePrice := averagePrice usageSolution;
                 trace_perceivedPrice := perceivedPrice usageSolution;
                 billPerConnection := billPerConnection |};
     warnings := warnings;
     validationMessage := if isValid validation then None else message validation;
     tiersUsed := ts |}.

End Solver.

End Demand.

(** ** src/lib/demand.ts

    An earlier copy of the engine.  Its tier validation, clamp and billing
    functions read exactly as those of [Demand]; the perceived price is a
    fixed half-and-half blend and the solver iterates 25 times. *)

Module DemandLegacy.
Import Demand.

Definition computePerceivedPrice (usage : Q) (ts : list TierDefinition) : Q :=
  let marginal := computeMarginalPrice usage ts in
  let average := computeAveragePrice usage ts in
  0.5 * (marginal + average).

Section Solver.
Context {M : MathOps}.

Fixpoint solveLoop (elasticity : Q) (ts : list TierDefinition)
    (baselineUsageClamped referencePrice : Q) (n : nat) (usage : Q) : Q :=
  match n with
  | O => usage
  | S n' =>
      let perceivedPrice := Math_max MIN_PRICE (computePerceivedPrice usage ts) in
      let nextUsage :=
        clampUsage (baselineUsageClamped
                    * Math_pow (perceivedPrice / referencePrice) elasticity) in
      if Qlt_bool (Math_abs (nextUsage - usage)) 0.0005 then nextUsage
      else solveLoop elasticity ts baselineUsageClamped referencePrice n' nextUsage
  end.

Definition solveUsage (elasticity : Q) (ts : list TierDefinition)
    (baselineUsage baselinePrice : Q) : UsageSolution :=
  let baselineUsageClamped := clampUsage baselineUsage in
  let referencePrice := Math_max MIN_PRICE baselinePrice in
  let usage := solveLoop elasticity ts baselineUsageClamped referencePrice
                 25 baselineUsageClamped in
  {| usage := usage;
     marginalPrice := computeMarginalPrice usage ts;
     averagePrice := computeAveragePrice usage ts;
     perceivedPrice := computePerceivedPrice usage ts |}.

End Solver.
End DemandLegacy.

(** ** montecarlo.ts *)

Module MonteCarlo.

Definition ELASTICITY_STD : Q := 0.05.
Definition ELASTICITY_MIN : Q := -0.4.
Definition ELASTICITY_MAX : Q := -0.05.

Record MonteCarloDraws : Type := {
  q0 : list Q;
  eps : list Q
}.

Record MonteCarloParams : Type := {
  connections : Q;
  baseFee : Q;
  tiers : list Demand.TierDefinition;
  anchor : Demand.BaselineAnchor;
  draws : MonteCarloDraws;
  elasticityMean : Q;
  usageVar : Q;
  validationMessage : option string;
  billSalience : Q
}.

(** [percentile] indexes an array it has checked to be non-empty, at
    positions between [0] and [length - 1]. *)
Definition percentile (sortedValues : list Q) (p : Q) : Q :=
  match sortedValues with
  | [] => 0
  | _ =>
      let position := inject_Z (Z.of_nat (List.length sortedValues - 1)) * p in
      let lowerIndex := Math_floor position in
      let upperIndex := Math_ceil position in
      if (lowerIndex =? upperIndex)%Z then nth (Z.to_nat lowerIndex) sortedValues 0
      else
        let weight := position - inject_Z lowerIndex in
        nth (Z.to_nat lowerIndex) sortedValues 0 * (1 - weight)
        + nth (Z.to_nat upperIndex) sortedValues 0 * weight
  end.

Definition clampElasticity (value : Q) : Q :=
  Math_min (Math_max value ELASTICITY_MIN) ELASTICITY_MAX.

Section Simulation.
Context {M : MathOps}.

Definition buildUsageDraws (anchorUsage usageVar : Q) (seeds : list Q) : list Q :=
  let sigma := Math_max 0.01 usageVar in
  let mu := Math_log (Math_max anchorUsage Demand.MIN_USAGE) - 0.5 * sigma * sigma in
  map (fun z => Demand.clampUsage (Math_exp (mu + sigma * z))) seeds.

(** One call of the Equilibrium Solver, as the arguments that vary from
    one individual to the next. *)
Record SolverCall : Type := {
  call_elasticity : Q;
  call_baselineUsage : Q
}.

(** The variables the sampling loop updates, and a log of the solver calls
    it makes (the log is bookkeeping of the model, not of the code). *)
Record LoopState : Type := {
  usageSamples : list Q;
  billSamples : list Q;
  usageSum : Q;
  billSum : Q;
  solverLog : list SolverCall
}.

Definition initialState : LoopState :=
  {| usageSamples := []; billSamples := []; usageSum := 0; billSum := 0;
     solverLog := [] |}.

(** The body of the sampling loop at index [i]. *)
Definition sampleStep (params : MonteCarloParams) (baselineUsages : list Q)
    (st : LoopState) (i : nat) : LoopState :=
  let elasticity :=
    clampElasticity (elasticityMean params + ELASTICITY_STD * nth i (eps (draws params)) 0) in
  let usageSolution :=
    Demand.solveUsage elasticity (tiers params) (nth i baselineUsages 0)
      (Demand.anchor_perceivedPrice (anchor params)) (baseFee params)
      (billSalience params) in
  let volumetric :=
    Demand.computeVolumetricCharge (Demand.usage usageSolution) (tiers params) in
  let bill := baseFee params + volumetric in
  {| usageSamples := usageSamples st ++ [Demand.usage usageSolution];
     billSamples := billSamples st ++ [bill];
     usageSum := usageSum st + Demand.usage usageSolution;
     billSum := billSum st + bill;
     solverLog := solverLog st
                  ++ [ {| call_elasticity := elasticity;
                          call_baselineUsage := nth i baselineUsages 0 |} ] |}.

Definition warn_baseline : string := "Baseline has not been established yet.".
Definition warn_p5 : string := "Some customers are hitting the minimum usage bound.".
Definition warn_p95 : string := "Some customers are hitting the maximum usage bound.".

(** [runMonteCarloSimulation], returning next to its result the log of the
    solver calls made on the way. *)
Definition runMonteCarloSimulation_logged (params : MonteCarloParams)
    : Demand.DemandResult * list SolverCall :=
  let sampleCount := Nat.min (List.length (q0 (draws params))) (List.length (eps (draws params))) in
  if (sampleCount =? 0)%nat then
    ({| Demand.usageMG := 0;
        Demand.revenue := 0;
        Demand.volumetricBillPerConnection := 0;
        Demand.trace :=
          {| Demand.perConnectionUsage := 0;
             Demand.usageP5 := Some 0;
             Demand.usageP95 := Some 0;
             Demand.trace_marginalPrice := 0;
             Demand.trace_averagePrice := 0;
             Demand.trace_perceivedPrice := 0;
             Demand.billPerConnection := baseFee params |};
        Demand.warnings := [warn_baseline];
        Demand.validationMessage := validationMessage params;
        Demand.tiersUsed := tiers params |}, [])
  else
    let baselineUsages :=
      buildUsageDraws (Demand.anchor_usage (anchor params)) (usageVar params)
        (q0 (draws params)) in
    let st := fold_left (sampleStep params baselineUsages) (seq 0 sampleCount) initialState in
    let weight := connections params / inject_Z (Z.of_nat sampleCount) in
    let usageMG := (usageSum st * weight) / 1000 in
    let revenue := billSum st * weight in
    let sortedUsage := Array_sort (fun a b => a - b) (usageSamples st) in
    let sortedBills := Array_sort (fun a b => a - b) (billSamples st) in
    let usageP5 := percentile sortedUsage 0.05 in
    let usageMedian := percentile sortedUsage 0.5 in
    let usageP95 := percentile sortedUsage 0.95 in
    let billMedian := percentile sortedBills 0.5 in
    let marginalPrice := Demand.computeMarginalPrice usageMedian (tiers params) in
    let averagePrice := Demand.computeAveragePrice usageMedian (tiers params) in
    let perceivedPrice :=
      Demand.computePerceivedPrice usageMedian (tiers params) (baseFee params)
        None (Some (billSalience params)) in
    let warnings :=
      (if Qle_bool 0 (elasticityMean params) then [Demand.warn_sign] else [])
      ++ (if Qle_bool usageP5 (Demand.MIN_USAGE + 0.001) then [warn_p5] else [])
      ++ (if Qle_bool (Demand.MAX_USAGE - 0.001) usageP95 then [warn_p95] else []) in
    ({| Demand.usageMG := usageMG;
        Demand.revenue := revenue;
        Demand.volumetricBillPerConnection := Math_max (billMedian - baseFee params) 0;
        Demand.trace :=
          {| Demand.perConnectionUsage := usageMedian;
             Demand.usageP5 := Some usageP5;
             Demand.usageP95 := Some usageP95;
             Demand.trace_marginalPrice := marginalPrice;
             Demand.trace_averagePrice := averagePrice;
             Demand.trace_perceivedPrice := perceivedPrice;
             Demand.billPerConnection := billMedian |};
        Demand.warnings := warnings;
        Demand.validationMessage := validationMessage params;
        Demand.tiersUsed := tiers params |}, solverLog st).

Definition runMonteCarloSimulation (params : MonteCarloParams) : Demand.DemandResult :=
  fst (runMonteCarloSimulation_logged params).

End Simulation.

(** The same parameters with another number of connections. *)
Definition withConnections (c : Q) (params : MonteCarloParams) : MonteCarloParams :=
  {| connections := c;
     baseFee := baseFee params;
     tiers := tiers params;
     anchor := anchor params;
     draws := draws params;
     elasticityMean := elasticityMean params;
     usageVar := usageVar params;
     validationMessage := validationMessage params;
     billSalience := billSalience params |}.

(** *** The simulation as a program that calls the solver

    [runMonteCarloSimulation] once more, with its calls of [solveUsage]
    left open: a program is done, or asks for one call of the solver with
    the six arguments the source passes and goes on from the solution it
    is given.  What the engine hands to the solver is then read off the
    program itself, whatever the solver answers. *)
Inductive SolverProgram (R : Type) : Type :=
| Done (result : R)
| Solve (elasticity : Q) (tierList : list Demand.TierDefinition)
    (baselineUsage baselinePrice fee salience : Q)
    (resume : Demand.UsageSolution -> SolverProgram R).

Arguments Done {R} result.
Arguments Solve {R} elasticity tierList baselineUsage baselinePrice fee salience resume.

(** The type of [solveUsage]. *)
Definition Solver : Type :=
  Q -> list Demand.TierDefinition -> Q -> Q -> Q -> Q -> Demand.UsageSolution.

(** The arguments of one call. *)
Record SolverArguments : Type := {
  arg_elasticity : Q;
  arg_tiers : list Demand.TierDefinition;
  arg_baselineUsage : Q;
  arg_baselinePrice : Q;
  arg_baseFee : Q;
  arg_billSalience : Q
}.

(** The result of a program whose calls [solve] answers. *)
Fixpoint runWith {R : Type} (solve : Solver) (p : SolverProgram R) : R :=
  match p with
  | Done result => result
  | Solve elasticity tierList baselineUsage baselinePrice fee salience resume =>
      runWith solve
        (resume (solve elasticity tierList baselineUsage baselinePrice fee salience))
  end.

(** The calls it makes on the way, in order. *)
Fixpoint solverCalls {R : Type} (solve : Solver) (p : SolverProgram R)
    : list SolverArguments :=
  match p with
  | Done _ => []
  | Solve elasticity tierList baselineUsage baselinePrice fee salience resume =>
      {| arg_elasticity := elasticity;
         arg_tiers := tierList;
         arg_baselineUsage := baselineUsage;
         arg_baselinePrice := baselinePrice;
         arg_baseFee := fee;
         arg_billSalience := salience |}
      :: solverCalls solve
           (resume (solve elasticity tierList baselineUsage baselinePrice fee salience))
  end.

(** The sampling loop over [indices], then [finish] on the loop variables. *)
Fixpoint samplingLoop {R : Type} (params : MonteCarloParams) (baselineUsages : list Q)
    (finish : LoopState -> R) (indices : list nat) (st : LoopState)
    : SolverProgram R :=
  match indices with
  | [] => Done (finish st)
  | i :: rest =>
      let elasticity :=
        clampElasticity
          (elasticityMean params + ELASTICITY_STD * nth i (eps (draws params)) 0) in
      Solve elasticity (tiers params) (nth i baselineUsages 0)
        (Demand.anchor_perceivedPrice (anchor params)) (baseFee params)
        (billSalience params)
        (fun usageSolution =>
           let volumetric :=
             Demand.computeVolumetricCharge (Demand.usage usageSolution) (tiers params) in
           let bill := baseFee params + volumetric in
           samplingLoop params baselineUsages finish rest
             {| usageSamples := usageSamples st ++ [Demand.usage usageSolution];
                billSamples := billSamples st ++ [bill];
                usageSum := usageSum st + Demand.usage usageSolution;
                billSum := billSum st + bill;
                solverLog := solverLog st
                             ++ [ {| call_elasticity := elasticity;
                                     call_baselineUsage := nth i baselineUsages 0 |} ] |})
  end.

(** What the function does after the loop. *)
Definition aggregate (params : MonteCarloParams) (sampleCount : nat) (st : LoopState)
    : Demand.DemandResult :=
  let weight := connections params / inject_Z (Z.of_nat sampleCount) in
  let usageMG := (usageSum st * weight) / 1000 in
  let revenue := billSum st * weight in
  let sortedUsage := Array_sort (fun a b => a - b) (usageSamples st) in
  let sortedBills := Array_sort (fun a b => a - b) (billSamples st) in
  let usageP5 := percentile sortedUsage 0.05 in
  let usageMedian := percentile sortedUsage 0.5 in
  let usageP95 := percentile sortedUsage 0.95 in
  let billMedian := percentile sortedBills 0.5 in
  let marginalPrice := Demand.computeMarginalPrice usageMedian (tiers params) in
  let averagePrice := Demand.computeAveragePrice usageMedian (tiers params) in
  let perceivedPrice :=
    Demand.computePerceivedPrice usageMedian (tiers params) (baseFee params)
      None (Some (billSalience params)) in
  let warnings :=
    (if Qle_bool 0 (elasticityMean params) then [Demand.warn_sign] else [])
    ++ (if Qle_bool usageP5 (Demand.MIN_USAGE + 0.001) then [warn_p5] else [])
    ++ (if Qle_bool (Demand.MAX_USAGE - 0.001) usageP95 then [warn_p95] else []) in
  {| Demand.usageMG := usageMG;
     Demand.revenue := revenue;
     Demand.volumetricBillPerConnection := Math_max (billMedian - baseFee params) 0;
     Demand.trace :=
       {| Demand.perConnectionUsage := usageMedian;
          Demand.usageP5 := Some usageP5;
          Demand.usageP95 := Some usageP95;
          Demand.trace_marginalPrice := marginalPrice;
          Demand.trace_averagePrice := averagePrice;
          Demand.trace_perceivedPrice := perceivedPrice;
          Demand.billPerConnection := billMedian |};
     Demand.warnings := warnings;
     Demand.validationMessage := validationMessage params;
     Demand.tiersUsed := tiers params |}.

Section Program.
Context {M : MathOps}.

(** The whole of [runMonteCarloSimulation]: the early return, the draws,
    the loop and the aggregation. *)
Definition simulationProgram (params : MonteCarloParams)
    : SolverProgram Demand.DemandResult :=
  let sampleCount :=
    Nat.min (List.length (q0 (draws params))) (List.length (eps (draws params))) in
  if (sampleCount =? 0)%nat then
    Done
      {| Demand.usageMG := 0;
         Demand.revenue := 0;
         Demand.volumetricBillPerConnection := 0;
         Demand.trace :=
           {| Demand.perConnectionUsage := 0;
              Demand.usageP5 := Some 0;
              Demand.usageP95 := Some 0;
              Demand.trace_marginalPrice := 0;
              Demand.trace_averagePrice := 0;
              Demand.trace_perceivedPrice := 0;
              Demand.billPerConnection := baseFee params |};
         Demand.warnings := [warn_baseline];
         Demand.validationMessage := validationMessage params;
         Demand.tiersUsed := tiers params |}
  else
    let baselineUsages :=
      buildUsageDraws (Demand.anchor_usage (anchor params)) (usageVar params)
        (q0 (draws params)) in
    samplingLoop params baselineUsages (aggregate params sampleCount)
      (seq 0 sampleCount) initialState.

End Program.

End MonteCarlo.

(** ** analytics.ts *)

Module Analytics.

Record DecileImpact : Type := {
  decile : string;
  deltaMG : Q;
  pctOfTotal : Q
}.

(** The template string [`D${idx + 1}`]. *)
Definition decileLabel (idx : nat) : string :=
  String.append "D" (NilEmpty.string_of_uint (Nat.to_uint (idx + 1))).

(** The inner loop of [computeDecileImpacts], over [start <= idx < end]. *)
Definition decileDelta (q0 q1 : list Q) (indices : list nat) (start end_ : nat) : Q :=
  fold_left
    (fun acc idx =>
       let sampleIndex := nth idx indices 0%nat in
       acc + (nth sampleIndex q1 0 - nth sampleIndex q0 0))
    (seq start (end_ - start)) 0.

(** The body of the outer loop: the impacts pushed so far and [totalDeltaMG]. *)
Definition decileStep (q0 q1 : list Q) (indices : list nat) (sampleCount : nat)
    (weight : Q) (st : list DecileImpact * Q) (d : nat) : list DecileImpact * Q :=
  let start := (d * sampleCount / 10)%nat in
  let end_ := ((d + 1) * sampleCount / 10)%nat in
  let delta := decileDelta q0 q1 indices start end_ * weight in
  (fst st ++ [ {| decile := decileLabel d; deltaMG := delta; pctOfTotal := 0 |} ],
   snd st + delta).

Definition computeDecileImpacts (q0 q1 : list Q) (connections : Q) : list DecileImpact :=
  let sampleCount := Nat.min (List.length q0) (List.length q1) in
  if (sampleCount =? 0)%nat || Qeq_bool connections 0 then
    map (fun idx => {| decile := decileLabel idx; deltaMG := 0; pctOfTotal := 0 |})
      (seq 0 10)
  else
    let indices :=
      Array_sort (fun a b => nth a q0 0 - nth b q0 0) (seq 0 sampleCount) in
    let weight := connections / inject_Z (Z.of_nat sampleCount) / 1000 in
    let st := fold_left (decileStep q0 q1 indices sampleCount weight) (seq 0 10) ([], 0) in
    let impacts := fst st in
    let totalDeltaMG := snd st in
    let denominator := if Qeq_bool totalDeltaMG 0 then 1 else totalDeltaMG in
    map (fun impact =>
           {| decile := decile impact;
              deltaMG := deltaMG impact;
              pctOfTotal := deltaMG impact / denominator |}) impacts.

End Analytics.

(** ** Notions the properties are stated with *)

Module Spec.
Import Demand.

(** The shape of a tier set: the first tier starts at [from], every
    finite upper bound is above its lower bound, each tier starts where the
    previous one ends, and the last tier, and only the last, is unbounded. *)
Fixpoint contiguousFrom (from : Q) (ts : list TierDefinition) : Prop :=
  match ts with
  | [] => False
  | tier :: rest =>
      lower tier == from /\
      match upper tier, rest with
      | None, [] => True
      | Some u, _ :: _ => lower tier < u /\ contiguousFrom u rest
      | _, _ => False
      end
  end.

(** A tier set contiguous to the letter: that shape from [0], every tier
    starting exactly where the one before it ends, and no negative price. *)
Definition ExactTierSet (ts : list TierDefinition) : Prop :=
  contiguousFrom 0 ts /\ Forall (fun tier => 0 <= price tier) ts.

(** The invariants as the validation checks them: contiguity holds up to a
    tolerance of [1e-6].  Ascending order is not an invariant of its own
    here: contiguity and positive widths give it up to that tolerance. *)
Fixpoint meetsInvariantsFrom (from : Q) (ts : list TierDefinition) : Prop :=
  match ts with
  | [] => False
  | tier :: rest =>
      Qabs (lower tier - from) <= 0.000001 /\
      match upper tier, rest with
      | None, [] => True
      | Some u, _ :: _ => lower tier < u /\ meetsInvariantsFrom u rest
      | _, _ => False
      end
  end.

Definition meetsInvariants (ts : list TierDefinition) : Prop :=
  meetsInvariantsFrom 0 ts.

(** Whether [tier], expected to start at [expected] ([None] when the tier
    before it is unbounded), breaks an invariant. *)
Definition offends (expected : option Q) (tier : TierDefinition) (isLast : bool) : bool :=
  match expected with
  | Some e => Qlt_bool 0.000001 (Qabs (lower tier - e))
  | None => true
  end
  || match upper tier with
     | Some u => Qle_bool u (lower tier) || isLast
     | None => false
     end.

(** The first tier of the list, in order, that breaks an invariant. *)
Fixpoint firstOffending (expected : option Q) (ts : list TierDefinition)
    : option TierDefinition :=
  match ts with
  | [] => None
  | tier :: rest =>
      if offends expected tier match rest with [] => true | _ => false end
      then Some tier
      else firstOffending (upper tier) rest
  end.



(** [usage] lies in the half-open interval of [tier]. *)
Definition activeIn (usage : Q) (tier : TierDefinition) : Prop :=
  lower tier <= usage /\
  match upper tier with
  | Some u => usage < u
  | None => True
  end.

(** Two neighbouring tiers, the second starting [d] above the end of the first. *)
Definition adjacentOffset (ts : list TierDefinition) (d : Q) : Prop :=
  exists pre a b post u,
    ts = pre ++ a :: b :: post /\ upper a = Some u /\ d == lower b - u.

Definition hasGap (ts : list TierDefinition) : Prop :=
  exists d, adjacentOffset ts d /\ 0 < d.
Definition hasOverlap (ts : list TierDefinition) : Prop :=
  exists d, adjacentOffset ts d /\ d < 0.
Definition finiteLast (ts : list TierDefinition) : Prop :=
  exists pre t u, ts = pre ++ [t] /\ upper t = Some u.

(** Gaps and overlaps wider than the tolerance of the validation. *)
Definition hasWideGap (ts : list TierDefinition) : Prop :=
  exists d, adjacentOffset ts d /\ 0.000001 < d.
Definition hasWideOverlap (ts : list TierDefinition) : Prop :=
  exists d, adjacentOffset ts d /\ d < - 0.000001.

Definition isFallback (ts : list TierDefinition) : Prop :=
  exists p, ts = [ {| lower := 0; upper := None; price := p |} ].

Definition nonEmptyMessage (m : option string) : Prop :=
  exists s, m = Some s /\ s <> EmptyString.

(** The part of [tier] that [usage] covers: [max(0, min(usage, upper) - lower)]. *)
Definition covered (usage : Q) (tier : TierDefinition) : Q :=
  Math_max 0 (match upper tier with
              | Some u => Math_min usage u
              | None => usage
              end - lower tier).

(** The progressive-billing sum: [price * covered] over all the tiers. *)
Definition progressiveCharge (usage : Q) (ts : list TierDefinition) : Q :=
  fold_right (fun tier acc => price tier * covered usage tier + acc) 0 ts.


(** The tier set of the worked example: 0-5 at 3.50, 5-10 at 4.25, 10 and
    above at 5.00. *)
Definition exampleTiers : list TierDefinition :=
  [ {| lower := 0; upper := Some 5; price := 3.5 |};
    {| lower := 5; upper := Some 10; price := 4.25 |};
    {| lower := 10; upper := None; price := 5 |} ].

(** What a rejected list comes back as: no validity, a message, and one
    unbounded tier from [0] at the price of the first tier of the list, or
    at [0] when the list is empty. *)
Definition rejected (ts : list TierDefinition) (r : TierValidationResult) : Prop :=
  isValid r = false
  /\ nonEmptyMessage (message r)
  /\ tiers r = [ {| lower := 0; upper := None;
                    price := match ts with t :: _ => price t | [] => 0 end |} ].

(** Two tiers with a gap of [1e-7] between them. *)
Definition narrowGapTiers : list TierDefinition :=
  [ {| lower := 0; upper := Some 5; price := 3 |};
    {| lower := 5.0000001; upper := None; price := 4 |} ].

(** Two tiers with a gap of [1] between them. *)
Definition wideGapTiers : list TierDefinition :=
  [ {| lower := 0; upper := Some 5; price := 3 |};
    {| lower := 6; upper := None; price := 4 |} ].

(** Monte Carlo parameters over the example tiers, for the given draws. *)
Definition exampleParams (d : MonteCarlo.MonteCarloDraws) : MonteCarlo.MonteCarloParams :=
  {| MonteCarlo.connections := 1000;
     MonteCarlo.baseFee := 25;
     MonteCarlo.tiers := exampleTiers;
     MonteCarlo.anchor := {| anchor_usage := 7; anchor_perceivedPrice := 4 |};
     MonteCarlo.draws := d;
     MonteCarlo.elasticityMean := -0.15;
     MonteCarlo.usageVar := 0.3;
     MonteCarlo.validationMessage := None;
     MonteCarlo.billSalience := 0.05 |}.

(** [sum f l] is the sum of [f x] over the [x] of [l]. *)
Definition sumOf {A : Type} (f : A -> Q) (l : list A) : Q :=
  fold_right (fun x acc => f x + acc) 0 l.

(** The sum of the [deltaMG] of the decile records. *)
Definition sumDeltaMG (impacts : list Analytics.DecileImpact) : Q :=
  sumOf Analytics.deltaMG impacts.

(** The total usage delta: proposal usage minus baseline usage, summed
    over all individuals. *)
Definition totalUsageDelta (q0 q1 : list Q) : Q :=
  sumOf (fun pair => snd pair - fst pair) (combine q0 q1).


(** Tiers in ascending order of their lower bounds. *)
Definition ascending (ts : list TierDefinition) : Prop :=
  StronglySorted (fun a b => lower a <= lower b) ts.

(** A tier with no negative bound and no negative price. *)
Definition nonNegativeTier (tier : TierDefinition) : Prop :=
  0 <= lower tier /\ 0 <= price tier
  /\ match upper tier with
     | Some u => 0 <= u
     | None => True
     end.




(** The arguments of the solver call for the individual [i]. *)
Definition callFor (params : MonteCarlo.MonteCarloParams) (baselineUsages : list Q)
    (i : nat) : MonteCarlo.SolverArguments :=
  {| MonteCarlo.arg_elasticity :=
       MonteCarlo.clampElasticity
         (MonteCarlo.elasticityMean params
          + MonteCarlo.ELASTICITY_STD * nth i (MonteCarlo.eps (MonteCarlo.draws params)) 0);
     MonteCarlo.arg_tiers := MonteCarlo.tiers params;
     MonteCarlo.arg_baselineUsage := nth i baselineUsages 0;
     MonteCarlo.arg_baselinePrice := anchor_perceivedPrice (MonteCarlo.anchor params);
     MonteCarlo.arg_baseFee := MonteCarlo.baseFee params;
     MonteCarlo.arg_billSalience := MonteCarlo.billSalience params |}.

End Spec.

(** ** analytics.ts, the tier helpers of the charts *)

Module Charts.

(** The [for] loop of [activeTierIndex], [i] being the index of the head
    of [ts]: [Some i] is [return i]. *)
Fixpoint activeTierLoop (usage : Q) (i : nat) (ts : list Demand.TierDefinition) : option nat :=
  match ts with
  | [] => None
  | tier :: rest =>
      if Qle_bool (Demand.lower tier) usage
         && match Demand.upper tier with
            | Some u => Qlt_bool usage u
            | None => true
            end
      then Some i
      else activeTierLoop usage (S i) rest
  end.

Definition activeTierIndex (ts : list Demand.TierDefinition) (usage : Q) : nat :=
  match activeTierLoop usage 0 ts with
  | Some i => i
  | None => Nat.max 0 (List.length ts - 1)
  end.

(** The decimal numeral of a natural number, as a template string prints it. *)
Definition decimal (n : nat) : string := NilEmpty.string_of_uint (Nat.to_uint n).

Definition tierKeys (ts : list Demand.TierDefinition) : list string :=
  map (fun entry =>
         let idx := fst entry in
         let tier := snd entry in
         if (idx =? List.length ts - 1)%nat
            && match Demand.upper tier with None => true | Some _ => false end
         then "Punitive"%string
         else String.append "Tier " (decimal (idx + 1)))
    (combine (seq 0 (List.length ts)) ts).

Definition tierBreaks (ts : list Demand.TierDefinition) : list Q :=
  fold_right (fun tier acc =>
                match Demand.upper tier with
                | Some u => u :: acc
                | None => acc
                end) [] ts.

End Charts.

(** ** Further notions *)

(** [Math.pow(1, e)] is [1] for every finite [e]. *)
Definition pow_one_law (M : MathOps) : Prop :=
  forall x e : Q, x == 1 -> Math_pow x e == 1.

(** The elasticity, the solved usage and the bill of individual [i] of a
    Monte Carlo run, as the sampling loop computes them. *)
Abbreviation individualElasticity params i :=
  (MonteCarlo.clampElasticity
     (MonteCarlo.elasticityMean params
      + MonteCarlo.ELASTICITY_STD * nth i (MonteCarlo.eps (MonteCarlo.draws params)) 0))
  (only parsing).

Abbreviation individualUsage params i :=
  (Demand.usage
     (Demand.solveUsage (individualElasticity params i) (MonteCarlo.tiers params)
        (nth i (MonteCarlo.buildUsageDraws
                  (Demand.anchor_usage (MonteCarlo.anchor params))
                  (MonteCarlo.usageVar params)
                  (MonteCarlo.q0 (MonteCarlo.draws params))) 0)
        (Demand.anchor_perceivedPrice (MonteCarlo.anchor params))
        (MonteCarlo.baseFee params) (MonteCarlo.billSalience params)))
  (only parsing).

Abbreviation individualBill params i :=
  (MonteCarlo.baseFee params
   + Demand.computeVolumetricCharge (individualUsage params i) (MonteCarlo.tiers params))
  (only parsing).

(** The number of individuals a run simulates. *)
Definition sampleCountOf (params : MonteCarlo.MonteCarloParams) : nat :=
  Nat.min (List.length (MonteCarlo.q0 (MonteCarlo.draws params)))
          (List.length (MonteCarlo.eps (MonteCarlo.draws params))).

(** The same parameters with other draws. *)
Definition withDraws (d : MonteCarlo.MonteCarloDraws) (params : MonteCarlo.MonteCarloParams)
    : MonteCarlo.MonteCarloParams :=
  {| MonteCarlo.connections := MonteCarlo.connections params;
     MonteCarlo.baseFee := MonteCarlo.baseFee params;
     MonteCarlo.tiers := MonteCarlo.tiers params;
     MonteCarlo.anchor := MonteCarlo.anchor params;
     MonteCarlo.draws := d;
     MonteCarlo.elasticityMean := MonteCarlo.elasticityMean params;
     MonteCarlo.usageVar := MonteCarlo.usageVar params;
     MonteCarlo.validationMessage := MonteCarlo.validationMessage params;
     MonteCarlo.billSalience := MonteCarlo.billSalience params |}.

(** * Properties *)

(** ** Number primitives *)

Lemma Qlt_bool_iff (x y : Q) : Qlt_bool x y = true <-> x < y.
Proof.
  unfold Qlt_bool. rewrite negb_true_iff.
  destruct (Qle_bool y x) eqn:E.
  - apply Qle_bool_iff in E. split; [discriminate | intro; lra].
  - split; [intros _ | reflexivity].
    destruct (Qlt_le_dec x y) as [Hlt | Hle]; [exact Hlt | ].
    apply Qle_bool_iff in Hle. congruence.
Qed.

Lemma Qlt_bool_false_iff (x y : Q) : Qlt_bool x y = false <-> y <= x.
Proof.
  unfold Qlt_bool. rewrite negb_false_iff. apply Qle_bool_iff.
Qed.

Lemma Qle_bool_false_iff (x y : Q) : Qle_bool x y = false <-> y < x.
Proof.
  rewrite <- Qlt_bool_iff. unfold Qlt_bool.
  destruct (Qle_bool x y); simpl; intuition discriminate.
Qed.

Lemma Math_max_spec (a b : Q) :
  (a <= b /\ Math_max a b = b) \/ (b < a /\ Math_max a b = a).
Proof.
  unfold Math_max. destruct (Qle_bool a b) eqn:E.
  - left. apply Qle_bool_iff in E. auto.
  - right. apply Qle_bool_false_iff in E. auto.
Qed.

Lemma Math_min_spec (a b : Q) :
  (a <= b /\ Math_min a b = a) \/ (b < a /\ Math_min a b = b).
Proof.
  unfold Math_min. destruct (Qle_bool a b) eqn:E.
  - left. apply Qle_bool_iff in E. auto.
  - right. apply Qle_bool_false_iff in E. auto.
Qed.

(** Case analysis on every [Math_max] and [Math_min] of the goal and of
    the context. *)
Ltac split_minmax_at a b spec :=
  let H := fresh "Hm" in
  destruct (spec a b) as [[? H] | [? H]]; rewrite H in *; clear H.

Ltac split_minmax :=
  repeat match goal with
         | |- context [Math_max ?a ?b] => split_minmax_at a b Math_max_spec
         | |- context [Math_min ?a ?b] => split_minmax_at a b Math_min_spec
         | _ : context [Math_max ?a ?b] |- _ => split_minmax_at a b Math_max_spec
         | _ : context [Math_min ?a ?b] |- _ => split_minmax_at a b Math_min_spec
         end.

(** Turns boolean comparisons in the context into propositions. *)
Ltac reflect_cmp :=
  repeat match goal with
         | H : Qle_bool _ _ = true |- _ => apply Qle_bool_iff in H
         | H : Qle_bool _ _ = false |- _ => apply Qle_bool_false_iff in H
         | H : Qlt_bool _ _ = true |- _ => apply Qlt_bool_iff in H
         | H : Qlt_bool _ _ = false |- _ => apply Qlt_bool_false_iff in H
         end.

Lemma sampleMath_pow_zero : pow_zero_law sampleMath.
Proof.
  intros x e He. simpl. rewrite He. reflexivity.
Qed.

(** ** The clamp *)

Lemma clampUsage_range (v : Q) :
  Demand.MIN_USAGE <= Demand.clampUsage v <= Demand.MAX_USAGE.
Proof.
  unfold Demand.clampUsage, Demand.MIN_USAGE, Demand.MAX_USAGE.
  split_minmax; lra.
Qed.

Lemma clampUsage_inside (v : Q) :
  Demand.MIN_USAGE <= v <= Demand.MAX_USAGE -> Demand.clampUsage v == v.
Proof.
  unfold Demand.clampUsage, Demand.MIN_USAGE, Demand.MAX_USAGE.
  intros [Hlo Hhi]. split_minmax; lra.
Qed.

Lemma clampUsage_wd (v w : Q) : v == w -> Demand.clampUsage v == Demand.clampUsage w.
Proof.
  unfold Demand.clampUsage, Demand.MIN_USAGE, Demand.MAX_USAGE.
  intros Hvw. split_minmax; lra.
Qed.

(** ** Zero elasticity *)

Section ZeroElasticity.
Context {M : MathOps} (pow_zero : pow_zero_law M).

(** With elasticity [0] an iterate that starts at the clamped baseline
    stays there, and the loop leaves at its first convergence test. *)
Lemma solveLoop_zero ts b ref fee sal n x :
  Demand.MIN_USAGE <= b <= Demand.MAX_USAGE -> x == b ->
  Demand.solveLoop 0 ts b ref fee sal n x == b.
Proof.
  intros Hb Hx. destruct n as [| n]; [exact Hx | ].
  cbn [Demand.solveLoop DemandLegacy.solveLoop].
  set (next := Demand.clampUsage _).
  assert (Hnext : next == b).
  { unfold next. rewrite <- (clampUsage_inside b Hb) at 2.
    apply clampUsage_wd. rewrite (pow_zero _ 0) by reflexivity. ring. }
  assert (Hconv : Qlt_bool (Math_abs (next - x)) 0.0005 = true).
  { apply Qlt_bool_iff. unfold Math_abs.
    apply Qabs_Qlt_condition. rewrite Hnext, Hx. lra. }
  rewrite Hconv. exact Hnext.
Qed.

Lemma legacy_solveLoop_zero ts b ref n x :
  Demand.MIN_USAGE <= b <= Demand.MAX_USAGE -> x == b ->
  DemandLegacy.solveLoop 0 ts b ref n x == b.
Proof.
  intros Hb Hx. destruct n as [| n]; [exact Hx | ].
  cbn [Demand.solveLoop DemandLegacy.solveLoop].
  set (next := Demand.clampUsage _).
  assert (Hnext : next == b).
  { unfold next. rewrite <- (clampUsage_inside b Hb) at 2.
    apply clampUsage_wd. rewrite (pow_zero _ 0) by reflexivity. ring. }
  assert (Hconv : Qlt_bool (Math_abs (next - x)) 0.0005 = true).
  { apply Qlt_bool_iff. unfold Math_abs.
    apply Qabs_Qlt_condition. rewrite Hnext, Hx. lra. }
  rewrite Hconv. exact Hnext.
Qed.

End ZeroElasticity.

(** C1 (as amended).  With elasticity [0] the Equilibrium Solver returns the
    baseline usage clamped to [[MIN_USAGE, MAX_USAGE]]; hence it returns
    [baselineUsage] itself whenever that lies between [MIN_USAGE] and
    [MAX_USAGE].  The same holds of the earlier copy of the solver. *)
Theorem solveUsage_zero_elasticity (M : MathOps) (pow_zero : pow_zero_law M)
    (ts : list Demand.TierDefinition)
    (baselineUsage baselinePrice baseFee billSalience : Q) :
  Demand.usage (Demand.solveUsage 0 ts baselineUsage baselinePrice baseFee billSalience)
    == Demand.clampUsage baselineUsage
  /\ Demand.usage (DemandLegacy.solveUsage 0 ts baselineUsage baselinePrice)
    == Demand.clampUsage baselineUsage
  /\ (Demand.MIN_USAGE <= baselineUsage <= Demand.MAX_USAGE ->
      Demand.usage (Demand.solveUsage 0 ts baselineUsage baselinePrice baseFee billSalience)
        == baselineUsage
      /\ Demand.usage (DemandLegacy.solveUsage 0 ts baselineUsage baselinePrice)
        == baselineUsage).
Proof.
  assert (H1 : Demand.usage
                 (Demand.solveUsage 0 ts baselineUsage baselinePrice baseFee billSalience)
               == Demand.clampUsage baselineUsage).
  { unfold Demand.solveUsage; cbn [Demand.usage].
    apply (solveLoop_zero pow_zero); [apply clampUsage_range | reflexivity]. }
  assert (H2 : Demand.usage (DemandLegacy.solveUsage 0 ts baselineUsage baselinePrice)
               == Demand.clampUsage baselineUsage).
  { unfold DemandLegacy.solveUsage; cbn [Demand.usage].
    apply (legacy_solveLoop_zero pow_zero); [apply clampUsage_range | reflexivity]. }
  split; [exact H1 | split; [exact H2 | ]].
  intros Hin. rewrite H1, H2. split; apply clampUsage_inside; exact Hin.
Qed.

Lemma solveUsage_zero_elasticity_witness :
  pow_zero_law sampleMath
  /\ Demand.usage (@Demand.solveUsage sampleMath 0 [] 7 4 25 0.05) == 7.
Proof.
  split; [exact sampleMath_pow_zero | ].
  apply (solveUsage_zero_elasticity sampleMath sampleMath_pow_zero [] 7 4 25 0.05).
  unfold Demand.MIN_USAGE, Demand.MAX_USAGE. split; vm_compute; discriminate.
Defined.

(** C1, as stated, fails: a baseline usage of [100] exceeds [MAX_USAGE]
    and the solver returns [60]. *)
Lemma solveUsage_zero_elasticity_counterexample :
  ~ (forall M : MathOps, pow_zero_law M ->
     forall ts baselineUsage baselinePrice baseFee billSalience,
       Demand.usage (Demand.solveUsage 0 ts baselineUsage baselinePrice baseFee billSalience)
         == baselineUsage).
Proof.
  intros H.
  specialize (H sampleMath sampleMath_pow_zero [] 100 1 0 0).
  vm_compute in H. discriminate H.
Qed.

(** ** Billing *)

Section Billing.
Import Demand Spec.

Lemma chargeLoop_ge u c ts :
  Forall (fun t => 0 <= price t) ts -> c <= chargeLoop u c ts.
Proof.
  intros Hp. revert c. induction Hp as [| t ts Ht Hts IH]; intros c; simpl; [lra | ].
  destruct (Qle_bool u (lower t)) eqn:E1; [lra | ].
  set (span := _ - lower t).
  assert (Hc : c <= (if Qlt_bool 0 span then c + span * price t else c)).
  { destruct (Qlt_bool 0 span) eqn:E2; reflect_cmp; nra. }
  destruct (match upper t with Some u0 => Qle_bool u u0 | None => true end); [exact Hc | ].
  eapply Qle_trans; [exact Hc | apply IH].
Qed.


Lemma contiguousFrom_inv from t ts :
  contiguousFrom from (t :: ts) ->
  lower t == from /\
  ((upper t = None /\ ts = [])
   \/ exists up, upper t = Some up /\ ts <> [] /\ lower t < up /\ contiguousFrom up ts).
Proof.
  intros (Hl & H). split; [exact Hl | ].
  destruct (upper t) as [up | ], ts as [| t' ts']; try contradiction.
  - right. exists up. destruct H as [Hup H].
    split; [reflexivity | split; [discriminate | split; assumption]].
  - left. split; reflexivity.
Qed.

Lemma covered_nonneg u t : 0 <= covered u t.
Proof. unfold covered. split_minmax; lra. Qed.



(** Below the start of a contiguous run of tiers nothing is covered. *)
Lemma progressiveCharge_below u ts : forall from,
  contiguousFrom from ts -> u <= from -> progressiveCharge u ts == 0.
Proof.
  induction ts as [| t ts IH]; intros from H Hu; simpl; [reflexivity | ].
  destruct H as (Hl & H).
  assert (Hcov : covered u t == 0).
  { unfold covered. destruct (upper t); split_minmax; lra. }
  rewrite Hcov.
  destruct (upper t) as [up | ], ts as [| t' ts']; try contradiction.
  - destruct H as [Hup H]. rewrite (IH up H) by lra. ring.
  - simpl. ring.
Qed.

(** On a valid tier set the loop, with its two early exits, computes the
    progressive-billing sum. *)
Lemma chargeLoop_progressive u ts : forall from c,
  contiguousFrom from ts -> chargeLoop u c ts == c + progressiveCharge u ts.
Proof.
  induction ts as [| t ts IH]; intros from c H; [contradiction | ].
  pose proof (progressiveCharge_below u (t :: ts) from H) as Hbelow.
  destruct H as (Hl & H).
  change (progressiveCharge u (t :: ts))
    with (price t * covered u t + progressiveCharge u ts) in *.
  cbn [chargeLoop].
  destruct (Qle_bool u (lower t)) eqn:E1; reflect_cmp.
  { rewrite Hbelow by lra. ring. }
  clear Hbelow.
  destruct (upper t) as [up | ] eqn:Eup, ts as [| t' ts']; try contradiction.
  - destruct H as [Hup H].
    assert (Hcov : covered u t == Math_min u up - lower t).
    { unfold covered. rewrite Eup. split_minmax; lra. }
    assert (Hspan : Qlt_bool 0 (Math_min u up - lower t) = true).
    { apply Qlt_bool_iff. split_minmax; lra. }
    rewrite Hspan, Hcov.
    destruct (Qle_bool u up) eqn:E2; reflect_cmp.
    + rewrite (progressiveCharge_below u (t' :: ts') up H E2). ring.
    + rewrite (IH up _ H). ring.
  - assert (Hcov : covered u t == u - lower t).
    { unfold covered. rewrite Eup. split_minmax; lra. }
    assert (Hspan : Qlt_bool 0 (u - lower t) = true).
    { apply Qlt_bool_iff. lra. }
    rewrite Hspan, Hcov. simpl. ring.
Qed.

(** The tier that contains the usage starts no lower than the run, and
    strictly higher when tiers precede it. *)
Lemma active_lower cov : forall from a rest,
  contiguousFrom from (cov ++ a :: rest) ->
  from <= lower a /\ (cov <> [] -> from < lower a).
Proof.
  induction cov as [| t cov IH]; intros from a rest H.
  - destruct H as (Hl & _). split; [lra | congruence].
  - apply contiguousFrom_inv in H.
    destruct H as (Hl & [[_ E] | (up & Eup & _ & Hup & H)]).
    { destruct cov; discriminate E. }
    destruct (IH up a rest H) as [Hle _]. split; [ | intros _]; lra.
Qed.



End Billing.

Section BillingTheorem.
Import Demand Spec.



End BillingTheorem.


Lemma exampleTiers_exact : Spec.ExactTierSet Spec.exampleTiers.
Proof.
  unfold Spec.ExactTierSet, Spec.exampleTiers. split.
  - cbn -[Qle Qlt Qeq]. repeat split; vm_compute; (reflexivity || discriminate).
  - repeat constructor; vm_compute; discriminate.
Qed.






(** ** Tier validation *)

Section Validation.
Import Demand Spec.

Lemma contiguousFrom_last ts : forall from d,
  contiguousFrom from ts -> upper (last ts d) = None.
Proof.
  induction ts as [| t ts IH]; intros from d H; [contradiction | ].
  apply contiguousFrom_inv in H.
  destruct H as (_ & [[Hup E] | (up & _ & Hne & _ & H)]).
  - subst ts. exact Hup.
  - destruct ts as [| t' ts']; [congruence | ]. exact (IH up d H).
Qed.

Lemma meetsInvariantsFrom_last ts : forall from d,
  meetsInvariantsFrom from ts -> upper (last ts d) = None.
Proof.
  induction ts as [| t ts IH]; intros from d H; [contradiction | ].
  destruct H as (_ & H).
  destruct (upper t) as [up | ] eqn:Eup, ts as [| t' ts']; try contradiction.
  - destruct H as [_ H]. exact (IH up d H).
  - exact Eup.
Qed.

(** Exact contiguity is contiguity within the tolerance. *)
Lemma contiguousFrom_meetsInvariants ts : forall from,
  contiguousFrom from ts -> meetsInvariantsFrom from ts.
Proof.
  induction ts as [| t ts IH]; intros from H; [contradiction | ].
  destruct H as (Hl & H). split.
  - apply Qabs_Qle_condition. split; lra.
  - destruct (upper t), ts; try contradiction; [ | exact I].
    destruct H as [Hup H]. split; [exact Hup | exact (IH _ H)].
Qed.

(** The loop runs to its end exactly on the lists that meet the invariants
    the loop checks, the last tier's bound apart. *)
Lemma validateLoop_None all ts : forall from,
  meetsInvariantsFrom from ts -> validateLoop all (Some from) ts = None.
Proof.
  induction ts as [| t ts IH]; intros from H; [contradiction | ].
  destruct H as (Hl & H). cbn [validateLoop].
  assert (E1 : Qlt_bool 0.000001 (Math_abs (lower t - from)) = false)
    by (apply Qlt_bool_false_iff; exact Hl).
  rewrite E1.
  destruct (upper t) as [up | ], ts as [| t' ts']; try contradiction.
  - destruct H as [Hup H].
    assert (E2 : Qle_bool up (lower t) = false) by (apply Qle_bool_false_iff; exact Hup).
    rewrite E2. exact (IH up H).
  - reflexivity.
Qed.

(** Conversely, when the loop runs to its end and the last tier is
    unbounded, the list meets the invariants. *)
Lemma validateLoop_None_inv all ts : forall from d,
  ts <> [] -> validateLoop all (Some from) ts = None -> upper (last ts d) = None ->
  meetsInvariantsFrom from ts.
Proof.
  induction ts as [| t ts IH]; intros from d Hne Hloop Hlast; [congruence | ].
  cbn [validateLoop] in Hloop.
  destruct (Qlt_bool 0.000001 (Math_abs (lower t - from))) eqn:E1; [discriminate | ].
  apply Qlt_bool_false_iff in E1. split; [exact E1 | ].
  destruct (upper t) as [up | ] eqn:Eup.
  - destruct (Qle_bool up (lower t)) eqn:E2; [discriminate | ].
    apply Qle_bool_false_iff in E2.
    destruct ts as [| t' ts']; [simpl in Hlast; congruence | ].
    split; [exact E2 | ]. apply (IH up d); [discriminate | exact Hloop | exact Hlast].
  - destruct ts as [| t' ts']; [exact I | ]. simpl in Hloop. discriminate.
Qed.

(** Every early return of the loop is a rejection carrying one of the two
    messages of the loop. *)
Lemma validateLoop_Some all ts : forall e r,
  validateLoop all e ts = Some r ->
  r = reject all msg_contiguous \/ r = reject all msg_upper.
Proof.
  induction ts as [| t ts IH]; intros e r H; [discriminate | ].
  cbn [validateLoop] in H.
  destruct (match e with Some e0 => _ | None => true end); [left; congruence | ].
  destruct (match upper t with Some u => _ | None => false end); [right; congruence | ].
  exact (IH _ _ H).
Qed.

Lemma reject_rejected ts m : m <> EmptyString -> rejected ts (reject ts m).
Proof.
  intros Hm. split; [reflexivity | split; [ | reflexivity]].
  exists m. split; [reflexivity | exact Hm].
Qed.

(** [validateTiers] either accepts its argument unchanged, and then the
    argument meets the invariants, or rejects it. *)
Lemma validateTiers_cases ts :
  (meetsInvariants ts
   /\ validateTiers ts = {| tiers := ts; isValid := true; message := None |})
  \/ (~ meetsInvariants ts /\ rejected ts (validateTiers ts)).
Proof.
  destruct ts as [| t0 ts].
  { right. split; [intros H; exact H | ].
    apply (reject_rejected []). discriminate. }
  unfold validateTiers.
  destruct (validateLoop (t0 :: ts) (Some 0) (t0 :: ts)) as [r | ] eqn:Eloop.
  - right. split.
    + intros H. rewrite (validateLoop_None _ _ _ H) in Eloop. discriminate.
    + destruct (validateLoop_Some _ _ _ _ Eloop) as [-> | ->];
        apply reject_rejected; discriminate.
  - destruct (upper (last (t0 :: ts) t0)) as [u | ] eqn:Elast.
    + right. split.
      * intros H. rewrite (meetsInvariantsFrom_last _ _ t0 H) in Elast. discriminate.
      * apply reject_rejected; discriminate.
    + left. split; [ | reflexivity].
      apply (validateLoop_None_inv (t0 :: ts) _ _ t0); [discriminate | exact Eloop | exact Elast].
Qed.

Lemma adjacent_within_tolerance pre : forall from a b post u,
  meetsInvariantsFrom from (pre ++ a :: b :: post) -> upper a = Some u ->
  Qabs (lower b - u) <= 0.000001.
Proof.
  induction pre as [| t pre IH]; intros from a b post u H Hu.
  - destruct H as (_ & H). simpl in H. rewrite Hu in H.
    destruct H as (_ & Hb & _). exact Hb.
  - destruct H as (_ & H). simpl in H.
    destruct (pre ++ a :: b :: post) eqn:E; [destruct pre; discriminate | ].
    destruct (upper t) as [up | ]; [ | contradiction].
    destruct H as [_ H]. rewrite <- E in H. exact (IH up a b post u H Hu).
Qed.

Lemma finiteLast_not_meets ts : finiteLast ts -> ~ meetsInvariants ts.
Proof.
  intros (pre & t & u & -> & Hu) H.
  pose proof (meetsInvariantsFrom_last _ _ t H) as Hlast.
  rewrite last_last in Hlast. congruence.
Qed.

End Validation.

(** C3 (as amended).  A tier list that starts at [0], is contiguous, has
    every finite upper bound above its lower bound and only its last tier
    unbounded comes back unchanged and valid.  A tier list with a gap or an
    overlap of more than [1e-6] between two neighbouring tiers, or with a
    finite last tier, comes back as a single unbounded fallback tier,
    invalid, with a non-empty message. *)
Theorem validateTiers_round_trip (ts : list Demand.TierDefinition) :
  (Spec.contiguousFrom 0 ts ->
   Demand.validateTiers ts
   = {| Demand.tiers := ts; Demand.isValid := true; Demand.message := None |})
  /\ (Spec.hasWideGap ts \/ Spec.hasWideOverlap ts \/ Spec.finiteLast ts ->
      Spec.isFallback (Demand.tiers (Demand.validateTiers ts))
      /\ Demand.isValid (Demand.validateTiers ts) = false
      /\ Spec.nonEmptyMessage (Demand.message (Demand.validateTiers ts))).
Proof.
  destruct (validateTiers_cases ts) as [[Hm Hacc] | [Hm (Hv & Hmsg & Htiers)]].
  - split; [intros _; exact Hacc | ].
    intros Hbad. exfalso.
    assert (Hwide : forall d, Spec.adjacentOffset ts d -> Qabs d <= 0.000001).
    { intros d (pre & a & b & post & u & -> & Hu & Hd).
      rewrite Hd. exact (adjacent_within_tolerance pre 0 a b post u Hm Hu). }
    destruct Hbad as [(d & Hadj & Hd) | [(d & Hadj & Hd) | Hfin]].
    + apply Hwide, Qabs_Qle_condition in Hadj. lra.
    + apply Hwide, Qabs_Qle_condition in Hadj. lra.
    + exact (finiteLast_not_meets ts Hfin Hm).
  - split.
    + intros Hc. elim Hm. exact (contiguousFrom_meetsInvariants ts 0 Hc).
    + intros _. split; [ | split; assumption].
      rewrite Htiers. eexists. reflexivity.
Qed.

Lemma validateTiers_round_trip_witness :
  (Spec.contiguousFrom 0 Spec.exampleTiers
   /\ Demand.isValid (Demand.validateTiers Spec.exampleTiers) = true)
  /\ (Spec.hasWideGap Spec.wideGapTiers
      /\ Demand.isValid (Demand.validateTiers Spec.wideGapTiers) = false).
Proof.
  assert (Hgap : Spec.hasWideGap Spec.wideGapTiers).
  { exists 1. split; [ | reflexivity].
    exists [], (nth 0 Spec.wideGapTiers (Demand.Build_TierDefinition 0 None 0)),
      (nth 1 Spec.wideGapTiers (Demand.Build_TierDefinition 0 None 0)), [], 5.
    split; [reflexivity | split; reflexivity]. }
  split; split.
  - exact (proj1 exampleTiers_exact).
  - rewrite (proj1 (validateTiers_round_trip Spec.exampleTiers) (proj1 exampleTiers_exact)).
    reflexivity.
  - exact Hgap.
  - apply (proj2 (validateTiers_round_trip Spec.wideGapTiers)). left. exact Hgap.
Defined.

(** C3, as stated, fails: two tiers with a gap of [1e-7] between them pass
    the validation unchanged, the gap being within the tolerance. *)
Lemma validateTiers_round_trip_counterexample :
  Spec.hasGap Spec.narrowGapTiers
  /\ Demand.validateTiers Spec.narrowGapTiers
     = {| Demand.tiers := Spec.narrowGapTiers;
          Demand.isValid := true;
          Demand.message := None |}.
Proof.
  split; [ | reflexivity].
  exists 0.0000001. split; [ | reflexivity].
  exists [], (nth 0 Spec.narrowGapTiers (Demand.Build_TierDefinition 0 None 0)),
    (nth 1 Spec.narrowGapTiers (Demand.Build_TierDefinition 0 None 0)), [], 5.
  split; [reflexivity | split; reflexivity].
Qed.

(** C4 (as amended).  Whenever a tier list breaks an invariant that the
    validation checks (contiguity from [0] up to [1e-6], upper bounds above
    lower bounds, only the last tier unbounded), the validation reports it
    invalid with a non-empty message and returns one unbounded tier whose
    price is that of the first tier of the list, or zero when the list is
    empty. *)
Theorem validateTiers_fallback (ts : list Demand.TierDefinition) :
  ~ Spec.meetsInvariants ts ->
  Spec.rejected ts (Demand.validateTiers ts).
Proof.
  intros Hbad. destruct (validateTiers_cases ts) as [[Hm _] | [_ Hrej]].
  - contradiction.
  - exact Hrej.
Qed.

Lemma wideGapTiers_invalid : ~ Spec.meetsInvariants Spec.wideGapTiers.
Proof.
  intros (_ & _ & H & _). vm_compute in H. exact (H eq_refl).
Qed.

Lemma validateTiers_fallback_witness :
  ~ Spec.meetsInvariants Spec.wideGapTiers
  /\ Spec.rejected Spec.wideGapTiers (Demand.validateTiers Spec.wideGapTiers).
Proof.
  split; [exact wideGapTiers_invalid | ].
  apply (validateTiers_fallback Spec.wideGapTiers). exact wideGapTiers_invalid.
Defined.

(** C4, as stated, fails: in two tiers with a gap of [1] the first tier to
    break an invariant is the second, priced at [4], and the fallback tier
    is priced at [3], the price of the first tier of the list. *)
Lemma validateTiers_fallback_counterexample :
  exists bad fallback,
    Spec.firstOffending (Some 0) Spec.wideGapTiers = Some bad
    /\ Demand.tiers (Demand.validateTiers Spec.wideGapTiers) = [fallback]
    /\ Demand.price bad == 4
    /\ Demand.price fallback == 3
    /\ ~ Demand.price fallback == Demand.price bad.
Proof.
  eexists. eexists.
  split; [vm_compute; reflexivity | ].
  split; [vm_compute; reflexivity | ].
  split; [reflexivity | split; [reflexivity | ]].
  vm_compute. discriminate.
Qed.

(** ** Perceived price *)

(** C5.  The perceived price is [alpha] times the marginal price plus
    [1 - alpha] times the average price plus the bill salience times the
    base fee per unit of usage, the usage taken no lower than [MIN_USAGE];
    an omitted [alpha] is [0.7]. *)
Theorem computePerceivedPrice_formula (usage : Q) (ts : list Demand.TierDefinition)
    (baseFee alpha billSalience : Q) :
  Demand.computePerceivedPrice usage ts baseFee (Some alpha) (Some billSalience)
  == alpha * Demand.computeMarginalPrice usage ts
     + (1 - alpha) * Demand.computeAveragePrice usage ts
     + billSalience * (baseFee / Qmax usage Demand.MIN_USAGE)
  /\ Demand.computePerceivedPrice usage ts baseFee None (Some billSalience)
     == (7 # 10) * Demand.computeMarginalPrice usage ts
        + (1 - (7 # 10)) * Demand.computeAveragePrice usage ts
        + billSalience * (baseFee / Qmax usage Demand.MIN_USAGE).
Proof.
  assert (Hmax : Math_max usage Demand.MIN_USAGE == Qmax usage Demand.MIN_USAGE).
  { destruct (Math_max_spec usage Demand.MIN_USAGE) as [[Hle ->] | [Hlt ->]].
    - symmetry. apply Q.max_r. exact Hle.
    - symmetry. apply Q.max_l. lra. }
  unfold Demand.computePerceivedPrice, Demand.DEFAULT_ALPHA.
  rewrite Hmax. split; reflexivity.
Qed.

(** ** Single-point demand *)

(** C8.  The single-point path reports the solved usage itself as both
    the 5th and the 95th percentile. *)
Theorem calculateDemand_degenerate_percentiles (M : MathOps)
    (inputs : Demand.DemandInputs) :
  Demand.usageP5 (Demand.trace (Demand.calculateDemand inputs))
  = Some (Demand.perConnectionUsage (Demand.trace (Demand.calculateDemand inputs)))
  /\ Demand.usageP95 (Demand.trace (Demand.calculateDemand inputs))
     = Some (Demand.perConnectionUsage (Demand.trace (Demand.calculateDemand inputs))).
Proof.
  split; reflexivity.
Qed.

(** ** Monte Carlo *)

Section MonteCarloFacts.
Import MonteCarlo.
Context {M : MathOps}.

Lemma clampElasticity_range (v : Q) :
  ELASTICITY_MIN <= clampElasticity v <= ELASTICITY_MAX.
Proof.
  unfold clampElasticity, ELASTICITY_MIN, ELASTICITY_MAX. split_minmax; lra.
Qed.

(** The call that the sampling loop makes at index [i]. *)
Lemma solverLog_fold params baselineUsages l : forall st,
  solverLog (fold_left (sampleStep params baselineUsages) l st)
  = solverLog st
    ++ map (fun i =>
              {| call_elasticity :=
                   clampElasticity
                     (elasticityMean params
                      + ELASTICITY_STD * nth i (eps (draws params)) 0);
                 call_baselineUsage := nth i baselineUsages 0 |}) l.
Proof.
  induction l as [| i l IH]; intros st; simpl.
  - rewrite app_nil_r. reflexivity.
  - rewrite IH. simpl. rewrite <- app_assoc. reflexivity.
Qed.

(** The sums of the sampling loop do not read [connections]. *)
Lemma sampleStep_connections c params baselineUsages :
  sampleStep (withConnections c params) baselineUsages
  = sampleStep params baselineUsages.
Proof. reflexivity. Qed.

End MonteCarloFacts.

(** Run with the solver of the engine, the loop of the program is the
    sampling loop of the function. *)
Lemma runWith_samplingLoop (M : MathOps) (R : Type) params baselineUsages
    (finish : MonteCarlo.LoopState -> R) indices : forall st,
  MonteCarlo.runWith Demand.solveUsage
    (MonteCarlo.samplingLoop params baselineUsages finish indices st)
  = finish (fold_left (MonteCarlo.sampleStep params baselineUsages) indices st).
Proof.
  induction indices as [| i rest IH]; intros st.
  - reflexivity.
  - cbn [MonteCarlo.samplingLoop MonteCarlo.runWith fold_left].
    rewrite IH. unfold MonteCarlo.sampleStep. reflexivity.
Qed.

(** The calls of the loop, whatever the solver answers. *)
Lemma solverCalls_samplingLoop (R : Type) (solve : MonteCarlo.Solver) params
    baselineUsages (finish : MonteCarlo.LoopState -> R) indices : forall st,
  MonteCarlo.solverCalls solve
    (MonteCarlo.samplingLoop params baselineUsages finish indices st)
  = map (Spec.callFor params baselineUsages) indices.
Proof.
  induction indices as [| i rest IH]; intros st.
  - reflexivity.
  - cbn [MonteCarlo.samplingLoop MonteCarlo.solverCalls map].
    rewrite IH. reflexivity.
Qed.

(** C9.  [runMonteCarloSimulation] is the program [simulationProgram] run
    with [solveUsage]; and whatever solver answers the calls of that
    program, every elasticity it is handed is the individual's draw
    clamped into [[ELASTICITY_MIN, ELASTICITY_MAX]] = [[-0.4, -0.05]],
    hence negative, whatever [elasticityMean] is; there is one call per
    sample. *)
Theorem monteCarlo_elasticity_clamped (M : MathOps)
    (params : MonteCarlo.MonteCarloParams) :
  MonteCarlo.runWith Demand.solveUsage (MonteCarlo.simulationProgram params)
  = MonteCarlo.runMonteCarloSimulation params
  /\ forall solve : MonteCarlo.Solver,
       let calls := MonteCarlo.solverCalls solve (MonteCarlo.simulationProgram params) in
       Forall (fun call =>
                 -0.4 <= MonteCarlo.arg_elasticity call <= -0.05
                 /\ MonteCarlo.arg_elasticity call < 0) calls
       /\ List.length calls
          = Nat.min (List.length (MonteCarlo.q0 (MonteCarlo.draws params)))
                    (List.length (MonteCarlo.eps (MonteCarlo.draws params)))
       /\ forall i call, nth_error calls i = Some call ->
            MonteCarlo.arg_elasticity call
            = MonteCarlo.clampElasticity
                (MonteCarlo.elasticityMean params
                 + MonteCarlo.ELASTICITY_STD
                   * nth i (MonteCarlo.eps (MonteCarlo.draws params)) 0).
Proof.
  split.
  { unfold MonteCarlo.simulationProgram, MonteCarlo.runMonteCarloSimulation,
      MonteCarlo.runMonteCarloSimulation_logged.
    destruct (Nat.min _ _ =? 0)%nat.
    - reflexivity.
    - rewrite runWith_samplingLoop. unfold MonteCarlo.aggregate. reflexivity. }
  intros solve. unfold MonteCarlo.simulationProgram.
  set (n := Nat.min _ _).
  destruct (Nat.eqb_spec n 0) as [E | E]; cbn zeta.
  - cbn [MonteCarlo.solverCalls].
    split; [constructor | split; [symmetry; exact E | ]].
    intros [| i] call H; discriminate H.
  - rewrite solverCalls_samplingLoop.
    split; [ | split].
    + apply Forall_map, Forall_forall. intros i _.
      cbn [Spec.callFor MonteCarlo.arg_elasticity].
      pose proof (clampElasticity_range
                    (MonteCarlo.elasticityMean params
                     + MonteCarlo.ELASTICITY_STD
                       * nth i (MonteCarlo.eps (MonteCarlo.draws params)) 0)) as H.
      unfold MonteCarlo.ELASTICITY_MIN, MonteCarlo.ELASTICITY_MAX in H. lra.
    + rewrite length_map, length_seq. reflexivity.
    + intros i call H. rewrite nth_error_map in H.
      destruct (nth_error (seq 0 n) i) as [j | ] eqn:Ej; [ | discriminate H].
      pose proof (nth_error_nth _ _ 0%nat Ej) as Hj.
      assert (Hi : (i < n)%nat).
      { rewrite <- (length_seq n 0). apply nth_error_Some. congruence. }
      rewrite seq_nth in Hj by exact Hi. simpl in Hj. subst j.
      injection H as <-. reflexivity.
Qed.

(** C10.  With an empty draw array the run returns, without calling the
    Equilibrium Solver, zero usage, zero revenue, a zero volumetric bill,
    the base fee as the bill per connection and the one warning that the
    baseline has not been established. *)
Theorem monteCarlo_empty_draws (M : MathOps) (params : MonteCarlo.MonteCarloParams) :
  MonteCarlo.q0 (MonteCarlo.draws params) = []
  \/ MonteCarlo.eps (MonteCarlo.draws params) = [] ->
  let result := MonteCarlo.runMonteCarloSimulation params in
  Demand.usageMG result = 0
  /\ Demand.revenue result = 0
  /\ Demand.volumetricBillPerConnection result = 0
  /\ Demand.billPerConnection (Demand.trace result) = MonteCarlo.baseFee params
  /\ Demand.warnings result = ["Baseline has not been established yet."%string]
  /\ snd (MonteCarlo.runMonteCarloSimulation_logged params) = [].
Proof.
  intros Hempty.
  unfold MonteCarlo.runMonteCarloSimulation, MonteCarlo.runMonteCarloSimulation_logged.
  assert (E : Nat.min (List.length (MonteCarlo.q0 (MonteCarlo.draws params)))
                (List.length (MonteCarlo.eps (MonteCarlo.draws params))) = 0%nat).
  { destruct Hempty as [-> | ->]; simpl; lia. }
  rewrite E. cbn. repeat split; reflexivity.
Qed.

(** C6.  With non-empty draw arrays, doubling [connections] and keeping
    everything else doubles the total usage volume and the total revenue. *)
Theorem monteCarlo_scale_invariance (M : MathOps)
    (params : MonteCarlo.MonteCarloParams) :
  MonteCarlo.q0 (MonteCarlo.draws params) <> [] ->
  MonteCarlo.eps (MonteCarlo.draws params) <> [] ->
  let doubled :=
    MonteCarlo.withConnections (2 * MonteCarlo.connections params) params in
  Demand.usageMG (MonteCarlo.runMonteCarloSimulation doubled)
  == 2 * Demand.usageMG (MonteCarlo.runMonteCarloSimulation params)
  /\ Demand.revenue (MonteCarlo.runMonteCarloSimulation doubled)
     == 2 * Demand.revenue (MonteCarlo.runMonteCarloSimulation params).
Proof.
  intros Hq0 Heps.
  unfold MonteCarlo.runMonteCarloSimulation, MonteCarlo.runMonteCarloSimulation_logged.
  cbn [MonteCarlo.withConnections MonteCarlo.draws MonteCarlo.connections
       MonteCarlo.anchor MonteCarlo.usageVar].
  set (n := Nat.min _ _).
  rewrite sampleStep_connections.
  set (st := fold_left _ _ _).
  destruct (Nat.eqb_spec n 0) as [E | E]; cbn [fst Demand.usageMG Demand.revenue].
  - split; reflexivity.
  - unfold Qdiv. split; ring.
Qed.

Lemma monteCarlo_empty_draws_witness :
  let params := Spec.exampleParams {| MonteCarlo.q0 := []; MonteCarlo.eps := [1] |} in
  (MonteCarlo.q0 (MonteCarlo.draws params) = []
   \/ MonteCarlo.eps (MonteCarlo.draws params) = [])
  /\ Demand.billPerConnection
       (Demand.trace (@MonteCarlo.runMonteCarloSimulation sampleMath params)) = 25.
Proof.
  split; [left; reflexivity | ].
  apply (monteCarlo_empty_draws sampleMath
           (Spec.exampleParams {| MonteCarlo.q0 := []; MonteCarlo.eps := [1] |})).
  left. reflexivity.
Defined.

Lemma monteCarlo_scale_invariance_witness :
  let params := Spec.exampleParams {| MonteCarlo.q0 := [0]; MonteCarlo.eps := [0] |} in
  MonteCarlo.q0 (MonteCarlo.draws params) <> []
  /\ MonteCarlo.eps (MonteCarlo.draws params) <> []
  /\ Demand.revenue
       (@MonteCarlo.runMonteCarloSimulation sampleMath
          (MonteCarlo.withConnections (2 * 1000) params))
     == 2 * Demand.revenue (@MonteCarlo.runMonteCarloSimulation sampleMath params).
Proof.
  split; [discriminate | split; [discriminate | ]].
  apply (monteCarlo_scale_invariance sampleMath
           (Spec.exampleParams {| MonteCarlo.q0 := [0]; MonteCarlo.eps := [0] |}));
    discriminate.
Defined.

(** ** Decile impacts *)

Section Sums.
Import Spec.
Context {A : Type}.

Lemma sumOf_cons (f : A -> Q) x l : sumOf f (x :: l) = f x + sumOf f l.
Proof. reflexivity. Qed.

Lemma sumOf_app (f : A -> Q) l1 l2 :
  sumOf f (l1 ++ l2) == sumOf f l1 + sumOf f l2.
Proof.
  induction l1 as [| x l1 IH]; simpl; [ring | ]. rewrite IH. ring.
Qed.

Lemma sumOf_ext (f g : A -> Q) l :
  (forall x, In x l -> f x == g x) -> sumOf f l == sumOf g l.
Proof.
  induction l as [| x l IH]; intros H; simpl; [reflexivity | ].
  rewrite (H x (or_introl eq_refl)), IH; [reflexivity | ].
  intros y Hy. apply H. right. exact Hy.
Qed.

Lemma sumOf_perm (f : A -> Q) l1 l2 :
  Permutation l1 l2 -> sumOf f l1 == sumOf f l2.
Proof.
  induction 1 as [| x l1 l2 _ IH | x y l | l1 l2 l3 _ IH1 _ IH2]; simpl.
  - reflexivity.
  - rewrite IH. reflexivity.
  - ring.
  - rewrite IH1. exact IH2.
Qed.

Lemma sumOf_map {B : Type} (f : A -> Q) (g : B -> A) l :
  sumOf f (map g l) = sumOf (fun x => f (g x)) l.
Proof.
  induction l as [| x l IH]; simpl; [reflexivity | ]. rewrite IH. reflexivity.
Qed.

(** An accumulating loop computes the sum. *)
Lemma fold_left_sumOf (f : A -> Q) l : forall acc,
  fold_left (fun acc x => acc + f x) l acc == acc + sumOf f l.
Proof.
  induction l as [| x l IH]; intros acc; simpl; [ring | ]. rewrite IH. ring.
Qed.

Lemma sort_insert_perm (cmp : A -> A -> Q) x l :
  Permutation (sort_insert cmp x l) (x :: l).
Proof.
  induction l as [| y l IH]; simpl; [reflexivity | ].
  destruct (Qle_bool (cmp x y) 0); [reflexivity | ].
  rewrite IH. apply perm_swap.
Qed.

(** Sorting rearranges and neither drops nor repeats an element. *)
Lemma Array_sort_perm (cmp : A -> A -> Q) l : Permutation (Array_sort cmp l) l.
Proof.
  induction l as [| x l IH]; simpl; [reflexivity | ].
  rewrite sort_insert_perm. constructor. exact IH.
Qed.

End Sums.

Section Deciles.
Import Spec Analytics.

(** The sum over a range of indices, split at an inner point. *)
Lemma sumOf_range_split (h : nat -> Q) (a b c : nat) :
  (a <= b)%nat -> (b <= c)%nat ->
  sumOf h (seq a (c - a)) == sumOf h (seq a (b - a)) + sumOf h (seq b (c - b)).
Proof.
  intros Hab Hbc.
  replace (c - a)%nat with ((b - a) + (c - b))%nat by lia.
  rewrite seq_app, sumOf_app.
  replace (a + (b - a))%nat with b by lia. reflexivity.
Qed.

Lemma decile_bound_mono (s d : nat) : (d * s / 10 <= (d + 1) * s / 10)%nat.
Proof.
  apply Nat.Div0.div_le_mono. nia.
Qed.

(** The ten decile ranges tile the indices below [k * s / 10]. *)
Lemma sumOf_deciles (h : nat -> Q) (s k : nat) :
  sumOf (fun d => sumOf h (seq (d * s / 10) ((d + 1) * s / 10 - d * s / 10))) (seq 0 k)
  == sumOf h (seq 0 (k * s / 10)).
Proof.
  induction k as [| k IH].
  - simpl. reflexivity.
  - rewrite seq_S, sumOf_app, IH. cbn [sumOf fold_right Nat.add].
    rewrite <- (Nat.sub_0_r (k * s / 10)) at 1.
    rewrite <- (Nat.sub_0_r (S k * s / 10)).
    rewrite (sumOf_range_split h 0 (k * s / 10) (S k * s / 10)); [ | lia | ].
    + replace (k + 1)%nat with (S k) by lia. ring.
    + replace (S k) with (k + 1)%nat by lia. apply decile_bound_mono.
Qed.

Lemma decileDelta_sumOf q0 q1 indices start end_ :
  decileDelta q0 q1 indices start end_
  == sumOf (fun idx => nth (nth idx indices 0%nat) q1 0 - nth (nth idx indices 0%nat) q0 0)
       (seq start (end_ - start)).
Proof.
  unfold decileDelta.
  rewrite (fold_left_sumOf
             (fun idx => nth (nth idx indices 0%nat) q1 0 - nth (nth idx indices 0%nat) q0 0)).
  ring.
Qed.

(** The records that the outer loop pushes, one per decile. *)
Lemma decileStep_fold q0 q1 indices s w l : forall st,
  fst (fold_left (decileStep q0 q1 indices s w) l st)
  = fst st
    ++ map (fun d =>
              {| decile := decileLabel d;
                 deltaMG := decileDelta q0 q1 indices (d * s / 10) ((d + 1) * s / 10) * w;
                 pctOfTotal := 0 |}) l.
Proof.
  induction l as [| d l IH]; intros st; simpl.
  - rewrite app_nil_r. reflexivity.
  - rewrite IH. simpl. rewrite <- app_assoc. reflexivity.
Qed.

Lemma map_nth_seq (l : list nat) :
  map (fun idx => nth idx l 0%nat) (seq 0 (List.length l)) = l.
Proof.
  apply (nth_ext _ _ 0%nat 0%nat).
  - rewrite length_map, length_seq. reflexivity.
  - intros n Hn. rewrite length_map, length_seq in Hn.
    rewrite (nth_indep _ 0%nat (nth 0 l 0%nat)) by (rewrite length_map, length_seq; exact Hn).
    rewrite (map_nth (fun idx => nth idx l 0%nat)), seq_nth by exact Hn.
    reflexivity.
Qed.

(** Summing the pairwise differences by index is summing them pair by pair. *)
Lemma sumOf_index_combine (q0 q1 : list Q) :
  List.length q0 = List.length q1 ->
  sumOf (fun i => nth i q1 0 - nth i q0 0) (seq 0 (List.length q0))
  == totalUsageDelta q0 q1.
Proof.
  unfold totalUsageDelta. revert q1.
  induction q0 as [| a q0 IH]; intros [| b q1] Hlen; try discriminate Hlen.
  - reflexivity.
  - injection Hlen as Hlen. cbn [List.length combine seq].
    rewrite !sumOf_cons, <- seq_shift, sumOf_map. cbn [nth snd fst].
    rewrite <- (IH q1 Hlen). reflexivity.
Qed.

End Deciles.

Lemma sumOf_scale {A : Type} (f : A -> Q) (w : Q) l :
  Spec.sumOf (fun x => f x * w) l == Spec.sumOf f l * w.
Proof.
  induction l as [| x l IH]; simpl; [ring | ]. rewrite IH. ring.
Qed.

(** The sorted indices, read position by position, are each index once. *)
Lemma sumOf_sorted_indices (g : nat -> Q) (cmp : nat -> nat -> Q) (s : nat) :
  Spec.sumOf (fun idx => g (nth idx (Array_sort cmp (seq 0 s)) 0%nat)) (seq 0 s)
  == Spec.sumOf g (seq 0 s).
Proof.
  pose proof (Array_sort_perm cmp (seq 0 s)) as Hperm.
  pose proof (Permutation_length Hperm) as Hlen. rewrite length_seq in Hlen.
  set (indices := Array_sort cmp (seq 0 s)) in *.
  assert (Hmap : map (fun idx => nth idx indices 0%nat) (seq 0 s) = indices)
    by (rewrite <- Hlen; apply map_nth_seq).
  rewrite <- (sumOf_map g (fun idx => nth idx indices 0%nat)), Hmap.
  apply sumOf_perm. exact Hperm.
Qed.

(** C7.  For baseline and proposal usage arrays of one length and a
    positive number of connections, the ten [deltaMG] add up to
    [connections / sampleCount / 1000] times the total usage delta.  (The
    arithmetic of the model is exact, so the sums agree exactly.) *)
Theorem decileImpacts_conservation (q0 q1 : list Q) (connections : Q) :
  List.length q0 = List.length q1 ->
  0 < connections ->
  Spec.sumDeltaMG (Analytics.computeDecileImpacts q0 q1 connections)
  == connections / inject_Z (Z.of_nat (List.length q0)) / 1000
     * Spec.totalUsageDelta q0 q1.
Proof.
  intros Hlen Hpos. unfold Analytics.computeDecileImpacts, Spec.sumDeltaMG.
  rewrite <- Hlen, Nat.min_id.
  set (s := List.length q0) in *.
  destruct (Nat.eqb_spec s 0) as [E | E]; cbn [orb].
  - destruct q0; [ | discriminate E]. destruct q1; [ | discriminate Hlen].
    unfold Qdiv. cbn. ring.
  - assert (Hc : Qeq_bool connections 0 = false).
    { destruct (Qeq_bool connections 0) eqn:Hc; [ | reflexivity].
      apply Qeq_bool_iff in Hc. lra. }
    rewrite Hc, decileStep_fold. cbn [fst app].
    set (w := connections / inject_Z (Z.of_nat s) / 1000).
    set (indices := Array_sort _ _).
    rewrite !sumOf_map. cbn [Analytics.deltaMG].
    rewrite (sumOf_ext _
               (fun d => Spec.sumOf
                           (fun idx => nth (nth idx indices 0%nat) q1 0
                                       - nth (nth idx indices 0%nat) q0 0)
                           (seq (d * s / 10) ((d + 1) * s / 10 - d * s / 10)) * w))
      by (intros d _; rewrite decileDelta_sumOf; reflexivity).
    rewrite sumOf_scale, sumOf_deciles.
    replace (10 * s / 10)%nat with s by (rewrite Nat.mul_comm, Nat.div_mul; lia).
    unfold indices.
    rewrite (sumOf_sorted_indices (fun i => nth i q1 0 - nth i q0 0)).
    unfold s at 1. rewrite (sumOf_index_combine q0 q1 Hlen). ring.
Qed.

Lemma decileImpacts_conservation_witness :
  List.length [3; 1; 2] = List.length [4; 1; 1]
  /\ 0 < 1000
  /\ Spec.sumDeltaMG (Analytics.computeDecileImpacts [3; 1; 2] [4; 1; 1] 1000)
     == 1000 / inject_Z (Z.of_nat (List.length [3; 1; 2])) / 1000
        * Spec.totalUsageDelta [3; 1; 2] [4; 1; 1].
Proof.
  split; [reflexivity | split; [reflexivity | ]].
  apply (decileImpacts_conservation [3; 1; 2] [4; 1; 1] 1000); reflexivity.
Defined.

(** * Further properties of the engine *)

(** ** Validation, continued *)

Section ValidationMore.
Import Demand Spec.

(** [validateTiers] accepts exactly the lists that meet the invariants it
    checks, and what it accepts it returns untouched, without a message. *)
Theorem validateTiers_accepts_iff (ts : list TierDefinition) :
  (isValid (validateTiers ts) = true <-> meetsInvariants ts)
  /\ (isValid (validateTiers ts) = true ->
      tiers (validateTiers ts) = ts /\ message (validateTiers ts) = None).
Proof.
  destruct (validateTiers_cases ts) as [[Hm Hacc] | [Hm (Hv & _)]].
  - rewrite Hacc. cbn. split; [tauto | auto].
  - rewrite Hv. split; [split; [discriminate | contradiction] | discriminate].
Qed.

Lemma fallback_meetsInvariants (p : Q) :
  meetsInvariants [ {| lower := 0; upper := None; price := p |} ].
Proof.
  split; [ | exact I]. cbn [lower]. apply Qabs_Qle_condition. split; lra.
Qed.

Lemma validateTiers_output_meets (ts : list TierDefinition) :
  meetsInvariants (tiers (validateTiers ts)).
Proof.
  destruct (validateTiers_cases ts) as [[Hm Hacc] | [_ (_ & _ & Ht)]].
  - rewrite Hacc. exact Hm.
  - rewrite Ht. apply fallback_meetsInvariants.
Qed.

(** Whatever the input, the tier list that comes out of [validateTiers]
    meets the invariants, and validating it again changes nothing. *)
Theorem validateTiers_output_usable (ts : list TierDefinition) :
  meetsInvariants (tiers (validateTiers ts))
  /\ validateTiers (tiers (validateTiers ts))
     = {| tiers := tiers (validateTiers ts); isValid := true; message := None |}.
Proof.
  pose proof (validateTiers_output_meets ts) as H.
  split; [exact H | ].
  destruct (validateTiers_cases (tiers (validateTiers ts))) as [[_ Hacc] | [Hm _]].
  - exact Hacc.
  - contradiction.
Qed.

Lemma validateTiers_prices (ts : list TierDefinition) :
  Forall (fun t => 0 <= price t) ts ->
  Forall (fun t => 0 <= price t) (tiers (validateTiers ts)).
Proof.
  intros Hp. destruct (validateTiers_cases ts) as [[_ Hacc] | [_ (_ & _ & Ht)]].
  - rewrite Hacc. exact Hp.
  - rewrite Ht. constructor; [ | constructor]. cbn [price].
    destruct Hp as [| t ts' Ht' _]; [lra | exact Ht'].
Qed.

End ValidationMore.

(** ** The solver stays inside the clamp *)

Section SolverRange.
Context {M : MathOps}.
Import Demand.

Lemma solveLoop_range e ts b ref fee sal n : forall x,
  MIN_USAGE <= x <= MAX_USAGE ->
  MIN_USAGE <= solveLoop e ts b ref fee sal n x <= MAX_USAGE.
Proof.
  induction n as [| n IH]; intros x Hx; [exact Hx | ].
  cbn [solveLoop]. set (next := clampUsage _).
  destruct (Qlt_bool (Math_abs (next - x)) 0.0005).
  - apply clampUsage_range.
  - apply IH. apply clampUsage_range.
Qed.

Lemma legacy_solveLoop_range e ts b ref n : forall x,
  MIN_USAGE <= x <= MAX_USAGE ->
  MIN_USAGE <= DemandLegacy.solveLoop e ts b ref n x <= MAX_USAGE.
Proof.
  induction n as [| n IH]; intros x Hx; [exact Hx | ].
  cbn [DemandLegacy.solveLoop]. set (next := clampUsage _).
  destruct (Qlt_bool (Math_abs (next - x)) 0.0005).
  - apply clampUsage_range.
  - apply IH. apply clampUsage_range.
Qed.

Lemma solveUsage_usage_range e ts b p fee sal :
  0.1 <= usage (solveUsage e ts b p fee sal) <= 60.
Proof.
  unfold solveUsage. cbn [usage].
  apply (solveLoop_range e ts). apply clampUsage_range.
Qed.

End SolverRange.

(** The usage that the Equilibrium Solver returns lies between [MIN_USAGE]
    and [MAX_USAGE], for every elasticity, tier list, baseline, fee and
    salience, whether or not the iteration converged; so does that of the
    earlier copy of the solver. *)
Theorem solveUsage_within_bounds (M : MathOps) (elasticity : Q)
    (ts : list Demand.TierDefinition)
    (baselineUsage baselinePrice baseFee billSalience : Q) :
  (0.1 <= Demand.usage (Demand.solveUsage elasticity ts baselineUsage baselinePrice
                          baseFee billSalience) <= 60)
  /\ (0.1 <= Demand.usage (DemandLegacy.solveUsage elasticity ts baselineUsage baselinePrice)
      <= 60).
Proof.
  split.
  - unfold Demand.solveUsage. cbn [Demand.usage].
    apply (solveLoop_range elasticity ts). apply clampUsage_range.
  - unfold DemandLegacy.solveUsage. cbn [Demand.usage].
    apply (legacy_solveLoop_range elasticity ts). apply clampUsage_range.
Qed.

(** ** Marginal and average price *)

Section Prices.
Import Demand Spec.

Lemma last_indep {A : Type} (l : list A) (d d' : A) :
  l <> [] -> last l d = last l d'.
Proof.
  induction l as [| x l IH]; [congruence | ]. intros _.
  destruct l as [| y l]; [reflexivity | ].
  change (last (y :: l) d = last (y :: l) d'). apply IH. discriminate.
Qed.

Lemma marginalLoop_below u ts : forall from,
  contiguousFrom from ts -> u < from -> marginalLoop u ts = None.
Proof.
  induction ts as [| t ts IH]; intros from H Hu; [reflexivity | ].
  apply contiguousFrom_inv in H. destruct H as (Hl & H). cbn [marginalLoop].
  assert (E : Qle_bool (lower t) u = false) by (apply Qle_bool_false_iff; lra).
  rewrite E. cbn [andb].
  destruct H as [[_ ->] | (up & _ & _ & Hup & H)]; [reflexivity | ].
  apply (IH up H). lra.
Qed.

Lemma marginalLoop_active u cov : forall from a rest,
  contiguousFrom from (cov ++ a :: rest) -> activeIn u a ->
  marginalLoop u (cov ++ a :: rest) = Some (price a).
Proof.
  induction cov as [| t cov IH]; intros from a rest H [Hlo Hhi].
  - cbn [app marginalLoop].
    assert (E : Qle_bool (lower a) u = true) by (apply Qle_bool_iff; exact Hlo).
    rewrite E. cbn [andb].
    destruct (upper a) as [up | ]; [ | reflexivity].
    apply Qlt_bool_iff in Hhi. rewrite Hhi. reflexivity.
  - apply contiguousFrom_inv in H.
    destruct H as (Hl & [[_ E] | (up & Eup & _ & Hup & H)]).
    { destruct cov; discriminate E. }
    destruct (active_lower cov up a rest H) as [Hle _].
    cbn [app marginalLoop]. rewrite Eup.
    assert (E : Qlt_bool u up = false) by (apply Qlt_bool_false_iff; lra).
    rewrite E, andb_false_r. exact (IH up a rest H (conj Hlo Hhi)).
Qed.

(** On a contiguous tier list from [0] the marginal price is the price of
    the tier whose interval holds the usage; a negative usage, which no
    tier holds, is priced at the last tier's rate. *)
Theorem computeMarginalPrice_contiguous (ts : list TierDefinition) (u : Q) :
  contiguousFrom 0 ts ->
  (forall covered active rest,
     ts = covered ++ active :: rest -> activeIn u active ->
     computeMarginalPrice u ts = price active)
  /\ (u < 0 -> forall d, computeMarginalPrice u ts = price (last ts d)).
Proof.
  intros Hc. split.
  - intros cov a rest -> Ha. unfold computeMarginalPrice.
    rewrite (marginalLoop_active u cov 0 a rest Hc Ha). reflexivity.
  - intros Hu d. unfold computeMarginalPrice.
    rewrite (marginalLoop_below u ts 0 Hc Hu).
    destruct ts as [| t0 ts']; [contradiction | ].
    f_equal. apply last_indep. discriminate.
Qed.

End Prices.

Lemma computeMarginalPrice_contiguous_witness :
  Spec.contiguousFrom 0 Spec.exampleTiers
  /\ Demand.computeMarginalPrice 7 Spec.exampleTiers = 4.25.
Proof.
  split; [exact (proj1 exampleTiers_exact) | ].
  apply (proj1 (computeMarginalPrice_contiguous Spec.exampleTiers 7
                  (proj1 exampleTiers_exact))
           (firstn 1 Spec.exampleTiers)
           (nth 1 Spec.exampleTiers (Demand.Build_TierDefinition 0 None 0))
           (skipn 2 Spec.exampleTiers)).
  - reflexivity.
  - split; vm_compute; (reflexivity || discriminate).
Defined.

Section AveragePrice.
Import Demand Spec.

(** The parts of the tiers that a usage covers add up to the usage. *)
Lemma covered_total u ts : forall from,
  contiguousFrom from ts -> sumOf (covered u) ts == Math_max 0 (u - from).
Proof.
  induction ts as [| t ts IH]; intros from H; [contradiction | ].
  apply contiguousFrom_inv in H. rewrite sumOf_cons.
  destruct H as (Hl & [[Eup ->] | (up & Eup & _ & Hup & H)]).
  - unfold covered. rewrite Eup. cbn [sumOf fold_right]. clear IH.
    split_minmax. all: lra.
  - rewrite (IH up H). unfold covered. rewrite Eup. clear IH.
    split_minmax. all: lra.
Qed.

Lemma progressiveCharge_between lo hi u ts :
  Forall (fun t => lo <= price t <= hi) ts ->
  lo * sumOf (covered u) ts <= progressiveCharge u ts <= hi * sumOf (covered u) ts.
Proof.
  induction 1 as [| t ts Ht Hts IH].
  - cbn. lra.
  - rewrite sumOf_cons.
    change (progressiveCharge u (t :: ts))
      with (price t * covered u t + progressiveCharge u ts).
    pose proof (covered_nonneg u t). nra.
Qed.

End AveragePrice.

(** On a contiguous tier list from [0] whose prices all lie between [lo]
    and [hi], the charge for a usage [u >= 0] lies between [lo * u] and
    [hi * u], and the average price of a positive usage between [lo] and
    [hi]. *)
Theorem averagePrice_between_tier_prices (ts : list Demand.TierDefinition)
    (lo hi u : Q) :
  Spec.contiguousFrom 0 ts ->
  Forall (fun t => lo <= Demand.price t <= hi) ts ->
  0 <= u ->
  (lo * u <= Demand.computeVolumetricCharge u ts <= hi * u)
  /\ (0 < u -> lo <= Demand.computeAveragePrice u ts <= hi).
Proof.
  intros Hc Hp Hu.
  assert (Hcharge : lo * u <= Demand.computeVolumetricCharge u ts <= hi * u).
  { unfold Demand.computeVolumetricCharge.
    rewrite (chargeLoop_progressive u ts 0 0 Hc).
    pose proof (progressiveCharge_between lo hi u ts Hp) as Hb.
    rewrite (covered_total u ts 0 Hc) in Hb.
    destruct (Math_max_spec 0 (u - 0)) as [[Hm E] | [Hm E]]; rewrite E in Hb; nra. }
  split; [exact Hcharge | ].
  intros Hpos. unfold Demand.computeAveragePrice.
  assert (E : Qle_bool u 0 = false) by (apply Qle_bool_false_iff; exact Hpos).
  rewrite E. split.
  - apply Qle_shift_div_l; [exact Hpos | lra].
  - apply Qle_shift_div_r; [exact Hpos | lra].
Qed.

Lemma averagePrice_between_tier_prices_witness :
  Spec.contiguousFrom 0 Spec.exampleTiers
  /\ Forall (fun t => 3.5 <= Demand.price t <= 5) Spec.exampleTiers
  /\ 0 <= 12
  /\ 3.5 * 12 <= Demand.computeVolumetricCharge 12 Spec.exampleTiers <= 5 * 12.
Proof.
  assert (Hp : Forall (fun t => 3.5 <= Demand.price t <= 5) Spec.exampleTiers).
  { repeat constructor; vm_compute; discriminate. }
  split; [exact (proj1 exampleTiers_exact) | split; [exact Hp | split; [discriminate | ]]].
  assert (Hu : 0 <= 12) by discriminate.
  exact (proj1 (averagePrice_between_tier_prices Spec.exampleTiers 3.5 5 12
                  (proj1 exampleTiers_exact) Hp Hu)).
Defined.

(** ** Rounding and normalisation *)

Section Rounding.
Import Demand.

Lemma floor_unique (y : Q) (k : Z) :
  inject_Z k <= y < inject_Z (k + 1) -> Qfloor y = k.
Proof.
  intros [Hlo Hhi].
  pose proof (Qfloor_resp_le _ _ Hlo) as H1. rewrite Qfloor_Z in H1.
  pose proof (Qfloor_le y) as H2.
  assert (H3 : (Qfloor y < k + 1)%Z) by (rewrite Zlt_Qlt; lra).
  lia.
Qed.

Lemma scale_pos (d : nat) : 0 < inject_Z (10 ^ Z.of_nat d).
Proof.
  change 0 with (inject_Z 0). rewrite <- Zlt_Qlt.
  apply Z.pow_pos_nonneg; lia.
Qed.

(** The integer that [roundTo] picks for a magnitude [a] on a grid of
    [1/s] is within half a unit of [a * s]. *)
Lemma round_half (a s : Q) :
  let n := inject_Z (Qfloor (a * s + (1 # 2))) in
  n - (1 # 2) <= a * s /\ a * s < n + (1 # 2).
Proof.
  intros n. unfold n.
  pose proof (Qfloor_le (a * s + (1 # 2))) as H1.
  pose proof (Qlt_floor (a * s + (1 # 2))) as H2.
  rewrite inject_Z_plus in H2. change (inject_Z 1) with 1 in H2. split; lra.
Qed.

Lemma roundTo_nonneg_case (x : Q) (d : nat) :
  0 <= x ->
  roundTo x d
  == inject_Z (Qfloor (x * inject_Z (10 ^ Z.of_nat d) + (1 # 2)))
     / inject_Z (10 ^ Z.of_nat d).
Proof.
  intros Hx. unfold roundTo.
  assert (E : Qlt_bool x 0 = false) by (apply Qlt_bool_false_iff; exact Hx).
  rewrite E, (Qabs_pos x Hx). reflexivity.
Qed.

Lemma roundTo_neg_case (x : Q) (d : nat) :
  x < 0 ->
  roundTo x d
  == - inject_Z (Qfloor (- x * inject_Z (10 ^ Z.of_nat d) + (1 # 2)))
     / inject_Z (10 ^ Z.of_nat d).
Proof.
  intros Hx. unfold roundTo.
  assert (E : Qlt_bool x 0 = true) by (apply Qlt_bool_iff; exact Hx).
  rewrite E, (Qabs_neg x) by lra. reflexivity.
Qed.

Lemma roundTo_wd (x y : Q) (d : nat) : x == y -> roundTo x d == roundTo y d.
Proof.
  intros Hxy. unfold roundTo.
  assert (E : Qlt_bool x 0 = Qlt_bool y 0).
  { unfold Qlt_bool. rewrite Hxy. reflexivity. }
  rewrite E, (Qfloor_comp _ _ (Qplus_comp _ _ (Qmult_comp _ _ (Qabs_wd _ _ Hxy) _ _ (Qeq_refl _))
                                 _ _ (Qeq_refl _))).
  reflexivity.
Qed.

(** A multiple of the grid step is left alone. *)
Lemma roundTo_grid (k : Z) (d : nat) :
  roundTo (inject_Z k / inject_Z (10 ^ Z.of_nat d)) d
  == inject_Z k / inject_Z (10 ^ Z.of_nat d).
Proof.
  pose proof (scale_pos d) as Hs. set (s := inject_Z (10 ^ Z.of_nat d)) in *.
  destruct (Z_lt_le_dec k 0) as [Hk | Hk].
  - assert (Hneg : inject_Z k / s < 0).
    { apply Qlt_shift_div_r; [exact Hs | ]. rewrite Qmult_0_l.
      change 0 with (inject_Z 0). rewrite <- Zlt_Qlt. exact Hk. }
    rewrite (roundTo_neg_case _ d Hneg). fold s.
    rewrite (floor_unique _ (- k)).
    + rewrite inject_Z_opp. field. lra.
    + rewrite inject_Z_plus, inject_Z_opp. change (inject_Z 1) with 1.
      assert (E : - (inject_Z k / s) * s == - inject_Z k) by (field; lra).
      rewrite E. split; lra.
  - assert (Hpos : 0 <= inject_Z k / s).
    { apply Qle_shift_div_l; [exact Hs | ]. rewrite Qmult_0_l.
      change 0 with (inject_Z 0). rewrite <- Zle_Qle. exact Hk. }
    rewrite (roundTo_nonneg_case _ d Hpos). fold s.
    rewrite (floor_unique _ k); [reflexivity | ].
    rewrite inject_Z_plus. change (inject_Z 1) with 1.
    assert (E : inject_Z k / s * s == inject_Z k) by (field; lra).
    rewrite E. split; lra.
Qed.

Lemma roundTo_on_grid (x : Q) (d : nat) :
  exists k : Z, roundTo x d == inject_Z k / inject_Z (10 ^ Z.of_nat d).
Proof.
  destruct (Qlt_le_dec x 0) as [Hx | Hx].
  - exists (- Qfloor (- x * inject_Z (10 ^ Z.of_nat d) + (1 # 2)))%Z.
    rewrite (roundTo_neg_case x d Hx), inject_Z_opp. reflexivity.
  - exists (Qfloor (x * inject_Z (10 ^ Z.of_nat d) + (1 # 2))).
    exact (roundTo_nonneg_case x d Hx).
Qed.

Lemma roundTo_error (x : Q) (d : nat) :
  Qabs (roundTo x d - x) <= (1 # 2) / inject_Z (10 ^ Z.of_nat d).
Proof.
  pose proof (scale_pos d) as Hs.
  apply Qabs_Qle_condition.
  destruct (Qlt_le_dec x 0) as [Hx | Hx].
  - rewrite (roundTo_neg_case x d Hx).
    pose proof (round_half (- x) (inject_Z (10 ^ Z.of_nat d))) as [H1 H2].
    revert H1 H2 Hs.
    generalize (inject_Z (Qfloor (- x * inject_Z (10 ^ Z.of_nat d) + (1 # 2)))).
    generalize (inject_Z (10 ^ Z.of_nat d)). intros s v H1 H2 Hs.
    split.
    + apply (Qmult_le_r _ _ s Hs).
      assert (E1 : - ((1 # 2) / s) * s == - (1 # 2)) by (field; lra).
      assert (E2 : (- v / s - x) * s == - v - x * s) by (field; lra).
      rewrite E1, E2. lra.
    + apply (Qmult_le_r _ _ s Hs).
      assert (E1 : (1 # 2) / s * s == (1 # 2)) by (field; lra).
      assert (E2 : (- v / s - x) * s == - v - x * s) by (field; lra).
      rewrite E1, E2. lra.
  - rewrite (roundTo_nonneg_case x d Hx).
    pose proof (round_half x (inject_Z (10 ^ Z.of_nat d))) as [H1 H2].
    revert H1 H2 Hs.
    generalize (inject_Z (Qfloor (x * inject_Z (10 ^ Z.of_nat d) + (1 # 2)))).
    generalize (inject_Z (10 ^ Z.of_nat d)). intros s v H1 H2 Hs.
    split.
    + apply (Qmult_le_r _ _ s Hs).
      assert (E1 : - ((1 # 2) / s) * s == - (1 # 2)) by (field; lra).
      assert (E2 : (v / s - x) * s == v - x * s) by (field; lra).
      rewrite E1, E2. lra.
    + apply (Qmult_le_r _ _ s Hs).
      assert (E1 : (1 # 2) / s * s == (1 # 2)) by (field; lra).
      assert (E2 : (v / s - x) * s == v - x * s) by (field; lra).
      rewrite E1, E2. lra.
Qed.

Lemma roundTo_nonneg (x : Q) (d : nat) : 0 <= x -> 0 <= roundTo x d.
Proof.
  intros Hx. rewrite (roundTo_nonneg_case x d Hx).
  pose proof (scale_pos d) as Hs.
  apply Qle_shift_div_l; [exact Hs | ]. rewrite Qmult_0_l.
  change 0 with (inject_Z 0). rewrite <- Zle_Qle.
  change 0%Z with (Qfloor (inject_Z 0)). apply Qfloor_resp_le.
  change (inject_Z 0) with 0. nra.
Qed.

End Rounding.

(** [roundTo value decimals] is a multiple of [10^-decimals] at most half
    such a step away from [value]; it leaves such multiples alone, so
    rounding twice is rounding once; and it keeps a non-negative value
    non-negative. *)
Theorem roundTo_nearest_on_grid (x : Q) (d : nat) :
  let step := 1 / inject_Z (10 ^ Z.of_nat d) in
  Qabs (Demand.roundTo x d - x) <= step / 2
  /\ (exists k : Z, Demand.roundTo x d == inject_Z k * step)
  /\ Demand.roundTo (Demand.roundTo x d) d == Demand.roundTo x d
  /\ (0 <= x -> 0 <= Demand.roundTo x d).
Proof.
  pose proof (scale_pos d) as Hs. cbv zeta.
  split; [ | split; [ | split]].
  - eapply Qle_trans; [apply roundTo_error | ].
    apply Qle_lteq. right. field. lra.
  - destruct (roundTo_on_grid x d) as [k Hk]. exists k. rewrite Hk. field. lra.
  - destruct (roundTo_on_grid x d) as [k Hk].
    rewrite (roundTo_wd _ _ d Hk), roundTo_grid. symmetry. exact Hk.
  - apply roundTo_nonneg.
Qed.

Section Sorting.
Context {A : Type} (key : A -> Q).

Lemma sort_insert_In (cmp : A -> A -> Q) x y l :
  In y (sort_insert cmp x l) -> y = x \/ In y l.
Proof.
  intros H. apply (Permutation_in _ (sort_insert_perm cmp x l)) in H.
  destruct H as [-> | H]; auto.
Qed.

Lemma sort_insert_sorted x l :
  StronglySorted (fun a b => key a <= key b) l ->
  StronglySorted (fun a b => key a <= key b) (sort_insert (fun a b => key a - key b) x l).
Proof.
  induction 1 as [| y l Hl IH Hy]; cbn [sort_insert].
  - constructor; constructor.
  - destruct (Qle_bool (key x - key y) 0) eqn:E; reflect_cmp.
    + constructor; [constructor; assumption | ].
      constructor; [lra | ].
      apply Forall_forall. intros z Hz.
      rewrite Forall_forall in Hy. specialize (Hy z Hz). cbv beta in Hy. lra.
    + constructor; [exact IH | ].
      apply Forall_forall. intros z Hz.
      apply sort_insert_In in Hz. destruct Hz as [-> | Hz]; [lra | ].
      rewrite Forall_forall in Hy. exact (Hy z Hz).
Qed.

(** Sorting with the comparator [key a - key b] puts the keys in
    ascending order. *)
Lemma Array_sort_sorted l :
  StronglySorted (fun a b => key a <= key b) (Array_sort (fun a b => key a - key b) l).
Proof.
  induction l as [| x l IH]; cbn [Array_sort fold_right]; [constructor | ].
  apply sort_insert_sorted. exact IH.
Qed.

End Sorting.

Lemma normalizeTiers_nonNegative (ts : list Demand.TierDefinition) :
  Forall Spec.nonNegativeTier (Demand.normalizeTiers ts).
Proof.
  unfold Demand.normalizeTiers.
  set (norm := fun tier : Demand.TierDefinition =>
                 Demand.Build_TierDefinition _ _ _).
  pose proof (Array_sort_perm (fun a b => Demand.lower a - Demand.lower b) (map norm ts))
    as Hperm.
  apply (Permutation_Forall (Permutation_sym Hperm)).
  apply Forall_map, Forall_forall. intros t _. unfold norm, Spec.nonNegativeTier.
  cbn [Demand.lower Demand.price Demand.upper].
  split; [ | split].
  - destruct (Math_max_spec 0 (Demand.roundTo (Demand.lower t) 4)) as [[H ->] | [H ->]]; lra.
  - destruct (Math_max_spec 0 (Demand.roundTo (Demand.price t) 6)) as [[H ->] | [H ->]]; lra.
  - destruct (Demand.upper t) as [u | ]; [ | exact I].
    apply roundTo_nonneg.
    destruct (Math_max_spec u 0) as [[H ->] | [H ->]]; lra.
Qed.

(** [normalizeTiers] keeps the number of tiers, puts them in ascending
    order of their lower bounds and leaves no negative bound or price. *)
Theorem normalizeTiers_normal_form (ts : list Demand.TierDefinition) :
  List.length (Demand.normalizeTiers ts) = List.length ts
  /\ Spec.ascending (Demand.normalizeTiers ts)
  /\ Forall Spec.nonNegativeTier (Demand.normalizeTiers ts).
Proof.
  split; [ | split; [ | apply normalizeTiers_nonNegative]].
  - unfold Demand.normalizeTiers.
    rewrite (Permutation_length (Array_sort_perm _ _)). apply length_map.
  - unfold Demand.normalizeTiers. apply (Array_sort_sorted Demand.lower).
Qed.

(** ** The single-point engine *)

Section SinglePoint.
Context {M : MathOps}.
Import Demand Spec.

(** The tier list that [calculateDemand] works with. *)
Lemma workingTiers_sound (raw : list TierDefinition) :
  meetsInvariants (tiers (validateTiers (normalizeTiers raw)))
  /\ Forall (fun t => 0 <= price t) (tiers (validateTiers (normalizeTiers raw))).
Proof.
  split; [apply validateTiers_output_meets | ].
  apply validateTiers_prices.
  pose proof (normalizeTiers_nonNegative raw) as H.
  apply (Forall_impl _ (fun t (Ht : nonNegativeTier t) => proj1 (proj2 Ht)) H).
Qed.

Lemma div_1000 (x : Q) : x / 1000 == x * (1 # 1000).
Proof. field. Qed.

Lemma volumetricCharge_nonneg (u : Q) (ts : list TierDefinition) :
  Forall (fun t => 0 <= price t) ts -> 0 <= computeVolumetricCharge u ts.
Proof.
  intros Hp. apply chargeLoop_ge. exact Hp.
Qed.

End SinglePoint.

(** [calculateDemand] never reports a negative volume, bill or revenue,
    whatever the inputs (negative fees and connection counts are raised
    to zero first); with no connections, or a negative count, volume and
    revenue are zero. *)
Theorem calculateDemand_nonnegative (M : MathOps) (inputs : Demand.DemandInputs) :
  let r := Demand.calculateDemand inputs in
  0 <= Demand.usageMG r
  /\ 0 <= Demand.revenue r
  /\ 0 <= Demand.volumetricBillPerConnection r
  /\ 0 <= Demand.billPerConnection (Demand.trace r)
  /\ (Demand.connections inputs <= 0 ->
      Demand.usageMG r == 0 /\ Demand.revenue r == 0).
Proof.
  unfold Demand.calculateDemand.
  cbn [Demand.usageMG Demand.revenue Demand.volumetricBillPerConnection
       Demand.billPerConnection Demand.trace].
  destruct (workingTiers_sound (Demand.input_tiers inputs)) as [_ Hp].
  set (ts := Demand.tiers _) in *.
  set (sol := Demand.solveUsage _ _ _ _ _ _).
  assert (Hu : 0.1 <= Demand.usage sol <= 60)
    by (unfold sol; apply solveUsage_usage_range).
  pose proof (volumetricCharge_nonneg (Demand.usage sol) ts Hp) as Hc.
  revert Hu Hc. generalize (Demand.computeVolumetricCharge (Demand.usage sol) ts).
  generalize (Demand.usage sol). intros u c Hu Hc.
  destruct (Math_max_spec 0 (Demand.baseFee inputs)) as [[Hf ->] | [Hf ->]];
    destruct (Math_max_spec 0 (Demand.connections inputs)) as [[Hn ->] | [Hn ->]];
    rewrite (div_1000 (_ * u));
    (split; [nra | split; [nra | split; [nra | split; [nra | intro; split; nra]]]]).
Qed.

(** The tier list that [calculateDemand] reports as used always meets the
    invariants and carries no negative price.  It is the normalised input
    when that meets the invariants, and then there is no validation
    message; otherwise it is the single fallback tier, with a non-empty
    message. *)
Theorem calculateDemand_tiersUsed (M : MathOps) (inputs : Demand.DemandInputs) :
  let r := Demand.calculateDemand inputs in
  let normalized := Demand.normalizeTiers (Demand.input_tiers inputs) in
  Spec.meetsInvariants (Demand.tiersUsed r)
  /\ Forall (fun t => 0 <= Demand.price t) (Demand.tiersUsed r)
  /\ (Spec.meetsInvariants normalized ->
      Demand.tiersUsed r = normalized /\ Demand.validationMessage r = None)
  /\ (~ Spec.meetsInvariants normalized ->
      Spec.isFallback (Demand.tiersUsed r)
      /\ Spec.nonEmptyMessage (Demand.validationMessage r)).
Proof.
  cbv zeta. unfold Demand.calculateDemand.
  cbn [Demand.tiersUsed Demand.validationMessage].
  destruct (workingTiers_sound (Demand.input_tiers inputs)) as [Hm Hp].
  split; [exact Hm | split; [exact Hp | ]].
  destruct (validateTiers_cases (Demand.normalizeTiers (Demand.input_tiers inputs)))
    as [[Hok Hacc] | [Hbad (Hv & Hmsg & Ht)]].
  - split; [ | contradiction]. intros _. rewrite Hacc. split; reflexivity.
  - split; [contradiction | ]. intros _. rewrite Hv, Ht.
    split; [eexists; reflexivity | exact Hmsg].
Qed.

(** The usage that [calculateDemand] reports lies between [MIN_USAGE] and
    [MAX_USAGE].  The warnings tell exactly three things: a non-negative
    elasticity, a usage within [0.001] of the lower bound, a usage within
    [0.001] of the upper bound. *)
Theorem calculateDemand_warnings (M : MathOps) (inputs : Demand.DemandInputs) :
  let r := Demand.calculateDemand inputs in
  let q := Demand.perConnectionUsage (Demand.trace r) in
  0.1 <= q <= 60
  /\ (In Demand.warn_sign (Demand.warnings r) <-> 0 <= Demand.elasticity inputs)
  /\ (In Demand.warn_min (Demand.warnings r) <-> q <= 0.101)
  /\ (In Demand.warn_max (Demand.warnings r) <-> 59.999 <= q)
  /\ (forall w, In w (Demand.warnings r) ->
        w = Demand.warn_sign \/ w = Demand.warn_min \/ w = Demand.warn_max).
Proof.
  cbv zeta. unfold Demand.calculateDemand.
  cbn [Demand.warnings Demand.perConnectionUsage Demand.trace].
  set (sol := Demand.solveUsage _ _ _ _ _ _).
  assert (Hq : 0.1 <= Demand.usage sol <= 60)
    by (unfold sol; apply solveUsage_usage_range).
  assert (D1 : Demand.warn_sign <> Demand.warn_min) by discriminate.
  assert (D2 : Demand.warn_sign <> Demand.warn_max) by discriminate.
  assert (D3 : Demand.warn_min <> Demand.warn_max) by discriminate.
  unfold Demand.MIN_USAGE, Demand.MAX_USAGE.
  revert Hq. generalize (Demand.usage sol). intros q Hq.
  split; [exact Hq | ].
  destruct (Qle_bool 0 (Demand.elasticity inputs)) eqn:E1;
    destruct (Qle_bool q (0.1 + 0.001)) eqn:E2;
    destruct (Qle_bool (60 - 0.001) q) eqn:E3;
    reflect_cmp; cbn [app In];
    (split; [ | split; [ | split]]);
    try (split; intros H; [ | solve [auto | exfalso; lra]];
         repeat (destruct H as [H | H]; try congruence; try lra); lra);
    intros w H; repeat (destruct H as [H | H]; auto); contradiction.
Qed.

(** ** The baseline as a fixed point *)

Lemma sampleMath_pow_one : pow_one_law sampleMath.
Proof.
  intros x e Hx. cbn [Math_pow sampleMath]. rewrite Hx. apply Qpower_1.
Qed.

Lemma Math_max_idem (a x : Q) : Math_max a (Math_max a x) = Math_max a x.
Proof.
  unfold Math_max at 1. destruct (Qle_bool a (Math_max a x)) eqn:E; [reflexivity | ].
  apply Qle_bool_false_iff in E.
  destruct (Math_max_spec a x) as [[H Hm] | [H Hm]]; rewrite Hm in E; lra.
Qed.

Section FixedPoint.
Context {M : MathOps} (pow_one : pow_one_law M).
Import Demand.

Lemma solveLoop_at_reference e ts b ref fee sal :
  MIN_USAGE <= b <= MAX_USAGE ->
  Math_max MIN_PRICE (computePerceivedPrice b ts fee (Some DEFAULT_ALPHA) (Some sal)) == ref ->
  forall n, solveLoop e ts b ref fee sal n b == b.
Proof.
  intros Hb Href n. destruct n as [| n]; [reflexivity | ].
  cbn [solveLoop]. set (P := Math_max MIN_PRICE _) in *.
  assert (HP : MIN_PRICE <= P).
  { unfold P. destruct (Math_max_spec MIN_PRICE
                          (computePerceivedPrice b ts fee (Some DEFAULT_ALPHA) (Some sal)))
      as [[H ->] | [H ->]]; lra. }
  unfold MIN_PRICE in HP.
  assert (Hratio : P / ref == 1) by (rewrite <- Href; field; lra).
  set (next := clampUsage _).
  assert (Hnext : next == b).
  { unfold next. rewrite <- (clampUsage_inside b Hb) at 2.
    apply clampUsage_wd. rewrite (pow_one _ e Hratio). ring. }
  assert (Hconv : Qlt_bool (Math_abs (next - b)) 0.0005 = true).
  { apply Qlt_bool_iff. unfold Math_abs.
    apply Qabs_Qlt_condition. rewrite Hnext. lra. }
  rewrite Hconv. exact Hnext.
Qed.

End FixedPoint.

(** When the reference price is the perceived price at the clamped
    baseline usage under the very rates being solved for, the solver
    returns that baseline usage, whatever the elasticity. *)
Theorem solveUsage_baseline_fixed_point (M : MathOps) (pow_one : pow_one_law M)
    (elasticity : Q) (ts : list Demand.TierDefinition)
    (baselineUsage baselinePrice baseFee billSalience : Q) :
  Math_max Demand.MIN_PRICE
    (Demand.computePerceivedPrice (Demand.clampUsage baselineUsage) ts baseFee
       (Some Demand.DEFAULT_ALPHA) (Some billSalience))
  == Math_max Demand.MIN_PRICE baselinePrice ->
  Demand.usage (Demand.solveUsage elasticity ts baselineUsage baselinePrice
                  baseFee billSalience)
  == Demand.clampUsage baselineUsage.
Proof.
  intros Href. unfold Demand.solveUsage. cbn [Demand.usage].
  apply (solveLoop_at_reference pow_one); [apply clampUsage_range | exact Href].
Qed.

Lemma solveUsage_baseline_fixed_point_witness :
  pow_one_law sampleMath
  /\ Math_max Demand.MIN_PRICE
       (Demand.computePerceivedPrice (Demand.clampUsage 7) [] 0
          (Some Demand.DEFAULT_ALPHA) (Some 0))
     == Math_max Demand.MIN_PRICE 0
  /\ Demand.usage (@Demand.solveUsage sampleMath (-0.2) [] 7 0 0 0)
     == Demand.clampUsage 7.
Proof.
  assert (H : Math_max Demand.MIN_PRICE
                (Demand.computePerceivedPrice (Demand.clampUsage 7) [] 0
                   (Some Demand.DEFAULT_ALPHA) (Some 0))
              == Math_max Demand.MIN_PRICE 0) by (vm_compute; reflexivity).
  split; [exact sampleMath_pow_one | split; [exact H | ]].
  exact (solveUsage_baseline_fixed_point sampleMath sampleMath_pow_one (-0.2) [] 7 0 0 0 H).
Defined.

(** Without a baseline anchor [calculateDemand] anchors on its own
    perceived price at [BASELINE_USAGE], and so reports a usage of [7]
    whatever the tiers, the fee, the salience and the elasticity. *)
Theorem calculateDemand_without_baseline (M : MathOps) (pow_one : pow_one_law M)
    (inputs : Demand.DemandInputs) :
  Demand.baseline inputs = None ->
  Demand.perConnectionUsage (Demand.trace (Demand.calculateDemand inputs)) == 7.
Proof.
  intros Hnone. unfold Demand.calculateDemand.
  cbn [Demand.perConnectionUsage Demand.trace]. rewrite Hnone.
  unfold Demand.solveUsage. cbn [Demand.usage].
  change (Demand.clampUsage Demand.BASELINE_USAGE) with 7.
  apply (solveLoop_at_reference pow_one).
  - split; discriminate.
  - rewrite Math_max_idem. reflexivity.
Qed.

Lemma calculateDemand_without_baseline_witness :
  let inputs :=
    {| Demand.connections := 1000; Demand.elasticity := -0.15; Demand.baseFee := 25;
       Demand.input_tiers := Spec.exampleTiers; Demand.baseline := None;
       Demand.billSalience := None |} in
  pow_one_law sampleMath
  /\ Demand.baseline inputs = None
  /\ Demand.perConnectionUsage
       (Demand.trace (@Demand.calculateDemand sampleMath inputs)) == 7.
Proof.
  split; [exact sampleMath_pow_one | split; [reflexivity | ]].
  apply (calculateDemand_without_baseline sampleMath sampleMath_pow_one). reflexivity.
Defined.

(** ** Percentiles *)

Section Percentile.
Import MonteCarlo.

Lemma ceiling_floor (x : Q) :
  (Qceiling x = Qfloor x /\ x == inject_Z (Qfloor x))
  \/ (Qceiling x = Qfloor x + 1)%Z /\ inject_Z (Qfloor x) < x.
Proof.
  pose proof (Qfloor_le x) as H1. pose proof (Qlt_floor x) as H2.
  pose proof (Qle_ceiling x) as H3. pose proof (Qceiling_lt x) as H4.
  assert (Hlo : (Qfloor x <= Qceiling x)%Z) by (rewrite Zle_Qle; lra).
  assert (Hhi : (Qceiling x - 1 < Qfloor x + 1)%Z) by (rewrite Zlt_Qlt; lra).
  destruct (Z.eq_dec (Qceiling x) (Qfloor x)) as [E | E].
  - left. split; [exact E | ]. rewrite E in H3. lra.
  - right. assert (E' : (Qceiling x = Qfloor x + 1)%Z) by lia.
    split; [exact E' | ].
    rewrite E' in H4.
    replace (Qfloor x + 1 - 1)%Z with (Qfloor x) in H4 by lia. exact H4.
Qed.

(** Where [percentile] reads the array: the position and its two
    neighbouring indices lie inside it. *)
Lemma position_range (n : nat) (p : Q) :
  (0 < n)%nat -> 0 <= p <= 1 ->
  let position := inject_Z (Z.of_nat (n - 1)) * p in
  (0 <= Qfloor position)%Z /\ (Z.to_nat (Qfloor position) < n)%nat
  /\ (0 <= Qceiling position)%Z /\ (Z.to_nat (Qceiling position) < n)%nat.
Proof.
  intros Hn Hp position.
  assert (Hm : 0 <= inject_Z (Z.of_nat (n - 1))).
  { change 0 with (inject_Z 0). rewrite <- Zle_Qle. lia. }
  assert (Hpos : 0 <= position <= inject_Z (Z.of_nat (n - 1))) by (unfold position; nra).
  pose proof (Qfloor_resp_le _ _ (proj1 Hpos)) as F1.
  pose proof (Qfloor_resp_le _ _ (proj2 Hpos)) as F2.
  pose proof (Qceiling_resp_le _ _ (proj1 Hpos)) as C1.
  pose proof (Qceiling_resp_le _ _ (proj2 Hpos)) as C2.
  change 0 with (inject_Z 0) in F1, C1.
  rewrite Qfloor_Z in F1, F2. rewrite Qceiling_Z in C1, C2.
  repeat split; lia.
Qed.

Lemma percentile_unfold (x : Q) (l : list Q) (p : Q) :
  let sorted := x :: l in
  let position := inject_Z (Z.of_nat (List.length sorted - 1)) * p in
  percentile sorted p
  = if (Qfloor position =? Qceiling position)%Z
    then nth (Z.to_nat (Qfloor position)) sorted 0
    else nth (Z.to_nat (Qfloor position)) sorted 0 * (1 - (position - inject_Z (Qfloor position)))
         + nth (Z.to_nat (Qceiling position)) sorted 0 * (position - inject_Z (Qfloor position)).
Proof. reflexivity. Qed.

(** A percentile is a weighted mean of two entries of the array. *)
Lemma percentile_between (x : Q) (l : list Q) (p : Q) :
  let sorted := x :: l in
  let position := inject_Z (Z.of_nat (List.length sorted - 1)) * p in
  let lo := nth (Z.to_nat (Qfloor position)) sorted 0 in
  let hi := nth (Z.to_nat (Qceiling position)) sorted 0 in
  exists w, 0 <= w <= 1 /\ percentile sorted p == lo * (1 - w) + hi * w
            /\ w == position - inject_Z (Qfloor position).
Proof.
  intros sorted position lo hi. unfold sorted at 1. rewrite percentile_unfold.
  fold sorted. fold position.
  destruct (ceiling_floor position) as [[E Hx] | [E Hx]].
  - rewrite E, Z.eqb_refl. exists 0. fold lo. split; [lra | split; [ring | lra]].
  - assert (Hne : (Qfloor position =? Qceiling position)%Z = false)
      by (apply Z.eqb_neq; lia).
    rewrite Hne. exists (position - inject_Z (Qfloor position)).
    pose proof (Qlt_floor position) as H2. rewrite inject_Z_plus in H2.
    change (inject_Z 1) with 1 in H2.
    split; [lra | split; reflexivity].
Qed.

End Percentile.

Lemma percentile_bounded (x : Q) (l : list Q) (p a b : Q) :
  0 <= p <= 1 ->
  Forall (fun v => a <= v <= b) (x :: l) ->
  a <= MonteCarlo.percentile (x :: l) p <= b.
Proof.
  intros Hp Hall.
  destruct (percentile_between x l p) as (w & Hw & Heq & _).
  destruct (position_range (List.length (x :: l)) p) as (F1 & F2 & C1 & C2);
    [cbn; lia | exact Hp | ].
  rewrite Forall_forall in Hall.
  pose proof (Hall _ (nth_In (x :: l) 0 F2)) as Hlo.
  pose proof (Hall _ (nth_In (x :: l) 0 C2)) as Hhi.
  rewrite Heq. revert Hlo Hhi.
  generalize (nth (Z.to_nat (Qfloor (inject_Z (Z.of_nat (List.length (x :: l) - 1)) * p)))
                (x :: l) 0).
  generalize (nth (Z.to_nat (Qceiling (inject_Z (Z.of_nat (List.length (x :: l) - 1)) * p)))
                (x :: l) 0).
  intros hi lo Hlo Hhi. nra.
Qed.

(** A percentile of a non-empty array, taken at [0 <= p <= 1], lies
    between any two bounds that hold of all the entries; of an empty
    array it is [0]. *)
Theorem percentile_within_bounds (values : list Q) (p a b : Q) :
  0 <= p <= 1 ->
  Forall (fun v => a <= v <= b) values ->
  (values <> [] -> a <= MonteCarlo.percentile values p <= b)
  /\ (values = [] -> MonteCarlo.percentile values p = 0).
Proof.
  intros Hp Hall. split.
  - intros Hne. destruct values as [| x l]; [congruence | ].
    apply percentile_bounded; assumption.
  - intros ->. reflexivity.
Qed.

Lemma percentile_within_bounds_witness :
  0 <= 0.5 <= 1
  /\ Forall (fun v => 1 <= v <= 4) [1; 2; 4]
  /\ 1 <= MonteCarlo.percentile [1; 2; 4] 0.5 <= 4.
Proof.
  assert (Hall : Forall (fun v => 1 <= v <= 4) [1; 2; 4]).
  { repeat constructor; discriminate. }
  assert (Hp : 0 <= 0.5 <= 1) by (split; discriminate).
  assert (Hne : [1; 2; 4] <> []) by discriminate.
  split; [exact Hp | split; [exact Hall | ]].
  exact (proj1 (percentile_within_bounds [1; 2; 4] 0.5 1 4 Hp Hall) Hne).
Defined.

(** The percentile at [p = 0] is the first entry of the array and the
    percentile at [p = 1] the last one ([0] for both when the array is
    empty). *)
Theorem percentile_endpoints (values : list Q) :
  MonteCarlo.percentile values 0 == nth 0 values 0
  /\ MonteCarlo.percentile values 1 == last values 0.
Proof.
  destruct values as [| x l]; [split; reflexivity | ].
  split; rewrite percentile_unfold.
  - rewrite (Qfloor_comp _ (inject_Z 0)), (Qceiling_comp _ (inject_Z 0)) by ring.
    rewrite Qfloor_Z, Qceiling_Z. reflexivity.
  - rewrite (Qfloor_comp _ (inject_Z (Z.of_nat (List.length (x :: l) - 1)))),
      (Qceiling_comp _ (inject_Z (Z.of_nat (List.length (x :: l) - 1)))) by ring.
    rewrite Qfloor_Z, Qceiling_Z, Z.eqb_refl, Nat2Z.id.
    cbn [List.length Nat.sub]. rewrite Nat.sub_0_r.
    clear. revert x. induction l as [| y l IH]; intros x; [reflexivity | ].
    change (nth (List.length (y :: l)) (x :: y :: l) 0) with (nth (List.length l) (y :: l) 0).
    change (last (x :: y :: l) 0) with (last (y :: l) 0). apply IH.
Qed.

Section PercentileOrder.
Import MonteCarlo.

Lemma sorted_nth (l : list Q) :
  StronglySorted Qle l ->
  forall i j, (i <= j)%nat -> (j < List.length l)%nat -> nth i l 0 <= nth j l 0.
Proof.
  induction 1 as [| x l Hl IH Hx]; intros i j Hij Hj; [cbn in Hj; lia | ].
  destruct j as [| j]; [replace i with 0%nat by lia; lra | ].
  cbn [List.length] in Hj.
  destruct i as [| i]; cbn [nth].
  - rewrite Forall_forall in Hx. apply Hx. apply nth_In. lia.
  - apply IH; lia.
Qed.

(** On an array in ascending order the percentile grows with [p]. *)
Lemma percentile_mono (x : Q) (l : list Q) (p p' : Q) :
  StronglySorted Qle (x :: l) -> 0 <= p -> p <= p' -> p' <= 1 ->
  percentile (x :: l) p <= percentile (x :: l) p'.
Proof.
  intros Hs H0 Hpp H1.
  set (n := List.length (x :: l)).
  assert (Hn : (0 < n)%nat) by (unfold n; cbn; lia).
  destruct (percentile_between x l p) as (w & Hw & Heq & Hwdef).
  destruct (percentile_between x l p') as (w' & Hw' & Heq' & Hwdef').
  destruct (position_range n p Hn) as (F1 & F2 & C1 & C2); [lra | ].
  destruct (position_range n p' Hn) as (F1' & F2' & C1' & C2'); [lra | ].
  fold n in Heq, Heq', Hwdef, Hwdef'.
  set (pos := inject_Z (Z.of_nat (n - 1)) * p) in *.
  set (pos' := inject_Z (Z.of_nat (n - 1)) * p') in *.
  assert (Hm : 0 <= inject_Z (Z.of_nat (n - 1))).
  { change 0 with (inject_Z 0). rewrite <- Zle_Qle. lia. }
  assert (Hpos : pos <= pos') by (unfold pos, pos'; nra).
  pose proof (Qfloor_resp_le _ _ Hpos) as Hk.
  rewrite Heq, Heq'.
  pose proof (sorted_nth _ Hs) as Hnth. fold n in Hnth.
  assert (HloHi : nth (Z.to_nat (Qfloor pos)) (x :: l) 0
                  <= nth (Z.to_nat (Qceiling pos)) (x :: l) 0).
  { apply Hnth; [ | exact C2].
    destruct (ceiling_floor pos) as [[E _] | [E _]]; lia. }
  assert (HloHi' : nth (Z.to_nat (Qfloor pos')) (x :: l) 0
                   <= nth (Z.to_nat (Qceiling pos')) (x :: l) 0).
  { apply Hnth; [ | exact C2'].
    destruct (ceiling_floor pos') as [[E _] | [E _]]; lia. }
  destruct (Z.eq_dec (Qfloor pos) (Qfloor pos')) as [Ek | Ek].
  - destruct (ceiling_floor pos) as [[E Hx] | [E Hx]].
    + (* pos is an integer *)
      assert (Hw0 : w == 0) by (rewrite Hwdef; lra).
      rewrite <- Ek in *. rewrite E in *.
      revert HloHi'. generalize (nth (Z.to_nat (Qceiling pos')) (x :: l) 0).
      generalize (nth (Z.to_nat (Qfloor pos)) (x :: l) 0). intros lo hi' H. nra.
    + destruct (ceiling_floor pos') as [[E' Hx'] | [E' Hx']].
      * exfalso. rewrite <- Ek in Hx'. lra.
      * rewrite <- Ek in *. rewrite E' , <- E in *.
        assert (Hww : w <= w') by (rewrite Hwdef, Hwdef'; lra).
        revert HloHi. generalize (nth (Z.to_nat (Qceiling pos)) (x :: l) 0).
        generalize (nth (Z.to_nat (Qfloor pos)) (x :: l) 0). intros lo hi H. nra.
  - assert (Hmid : nth (Z.to_nat (Qceiling pos)) (x :: l) 0
                   <= nth (Z.to_nat (Qfloor pos')) (x :: l) 0).
    { apply Hnth; [ | exact F2'].
      destruct (ceiling_floor pos) as [[E _] | [E _]]; lia. }
    revert HloHi HloHi' Hmid.
    generalize (nth (Z.to_nat (Qfloor pos)) (x :: l) 0).
    generalize (nth (Z.to_nat (Qceiling pos)) (x :: l) 0).
    generalize (nth (Z.to_nat (Qfloor pos')) (x :: l) 0).
    generalize (nth (Z.to_nat (Qceiling pos')) (x :: l) 0).
    intros hi' lo' hi lo H1' H2' H3'. nra.
Qed.

End PercentileOrder.

(** ** The Monte Carlo aggregates *)

Section Sampling.
Context {M : MathOps}.
Import MonteCarlo.

(** What the sampling loop has collected after the indices of [l]. *)
Lemma sampling_fold params l : forall st,
  let bu := buildUsageDraws (Demand.anchor_usage (anchor params)) (usageVar params)
              (q0 (draws params)) in
  let st' := fold_left (sampleStep params bu) l st in
  usageSamples st' = usageSamples st ++ map (fun i => individualUsage params i) l
  /\ billSamples st' = billSamples st ++ map (fun i => individualBill params i) l
  /\ usageSum st' == usageSum st + Spec.sumOf (fun i => individualUsage params i) l
  /\ billSum st' == billSum st + Spec.sumOf (fun i => individualBill params i) l.
Proof.
  induction l as [| i l IH]; intros st; cbn [fold_left map].
  - rewrite !app_nil_r. cbn [Spec.sumOf fold_right]. repeat split; ring.
  - specialize (IH (sampleStep params
                      (buildUsageDraws (Demand.anchor_usage (anchor params))
                         (usageVar params) (q0 (draws params))) st i)).
    cbv zeta in IH. destruct IH as (H1 & H2 & H3 & H4).
    rewrite H1, H2, H3, H4, !sumOf_cons.
    cbn [sampleStep usageSamples billSamples usageSum billSum].
    rewrite <- !app_assoc. cbn [app].
    split; [reflexivity | split; [reflexivity | ]].
    generalize (Spec.sumOf (fun i => individualUsage params i) l).
    generalize (Spec.sumOf (fun i => individualBill params i) l).
    generalize (Demand.computeVolumetricCharge (individualUsage params i) (tiers params)).
    generalize (individualUsage params i).
    generalize (usageSum st). generalize (billSum st). generalize (baseFee params).
    intros f bs us u c sb su. split; ring.
Qed.

Lemma buildUsageDraws_range anchorUsage usageVar seeds :
  List.length (buildUsageDraws anchorUsage usageVar seeds) = List.length seeds
  /\ Forall (fun v => 0.1 <= v <= 60) (buildUsageDraws anchorUsage usageVar seeds).
Proof.
  unfold buildUsageDraws. split; [apply length_map | ].
  apply Forall_map, Forall_forall. intros z _. apply clampUsage_range.
Qed.

Lemma individualUsage_range params i : 0.1 <= individualUsage params i <= 60.
Proof. apply solveUsage_usage_range. Qed.

Lemma individualBill_ge params i :
  Forall (fun t => 0 <= Demand.price t) (tiers params) ->
  baseFee params <= individualBill params i.
Proof.
  intros Hp.
  pose proof (volumetricCharge_nonneg (individualUsage params i) (tiers params) Hp) as H.
  revert H. generalize (Demand.computeVolumetricCharge (individualUsage params i) (tiers params)).
  generalize (baseFee params). intros f c H. lra.
Qed.

Lemma sumOf_bounds {A : Type} (f : A -> Q) (a b : Q) (l : list A) :
  (forall x, a <= f x <= b) ->
  inject_Z (Z.of_nat (List.length l)) * a <= Spec.sumOf f l
  /\ Spec.sumOf f l <= inject_Z (Z.of_nat (List.length l)) * b.
Proof.
  intros H. induction l as [| x l IH].
  - cbn [List.length Spec.sumOf fold_right]. change (inject_Z (Z.of_nat 0)) with 0.
    split; lra.
  - cbn [List.length]. rewrite Nat2Z.inj_succ, <- Z.add_1_r, inject_Z_plus.
    change (inject_Z 1) with 1. rewrite sumOf_cons. specialize (H x). nra.
Qed.

Lemma sorted_samples_bounds (f : nat -> Q) (a b : Q) (n : nat) :
  (forall i, a <= f i <= b) ->
  let sorted := Array_sort (fun x y => x - y) (map f (seq 0 n)) in
  Forall (fun v => a <= v <= b) sorted
  /\ StronglySorted Qle sorted
  /\ List.length sorted = n.
Proof.
  intros H sorted.
  pose proof (Array_sort_perm (fun x y => x - y) (map f (seq 0 n))) as Hperm.
  fold sorted in Hperm. split; [ | split].
  - apply (Permutation_Forall (Permutation_sym Hperm)).
    apply Forall_map, Forall_forall. intros i _. apply H.
  - apply (Array_sort_sorted (fun v : Q => v)).
  - rewrite (Permutation_length Hperm), length_map, length_seq. reflexivity.
Qed.

End Sampling.

Section Aggregates.
Context {M : MathOps}.
Import MonteCarlo.

(** The result of a run over at least one individual, in terms of the
    individuals' usages and bills. *)
Lemma runMonteCarloSimulation_nonempty params :
  sampleCountOf params <> 0%nat ->
  let n := sampleCountOf params in
  let sortedUsage := Array_sort (fun a b => a - b) (map (fun i => individualUsage params i) (seq 0 n)) in
  let sortedBills := Array_sort (fun a b => a - b) (map (fun i => individualBill params i) (seq 0 n)) in
  let r := runMonteCarloSimulation params in
  Demand.perConnectionUsage (Demand.trace r) = percentile sortedUsage 0.5
  /\ Demand.usageP5 (Demand.trace r) = Some (percentile sortedUsage 0.05)
  /\ Demand.usageP95 (Demand.trace r) = Some (percentile sortedUsage 0.95)
  /\ Demand.billPerConnection (Demand.trace r) = percentile sortedBills 0.5
  /\ Demand.volumetricBillPerConnection r
     = Math_max (percentile sortedBills 0.5 - baseFee params) 0
  /\ Demand.usageMG r
     == Spec.sumOf (fun i => individualUsage params i) (seq 0 n)
        * (connections params / inject_Z (Z.of_nat n)) / 1000
  /\ Demand.revenue r
     == Spec.sumOf (fun i => individualBill params i) (seq 0 n)
        * (connections params / inject_Z (Z.of_nat n))
  /\ Demand.warnings r
     = (if Qle_bool 0 (elasticityMean params) then [Demand.warn_sign] else [])
       ++ (if Qle_bool (percentile sortedUsage 0.05) (Demand.MIN_USAGE + 0.001)
           then [warn_p5] else [])
       ++ (if Qle_bool (Demand.MAX_USAGE - 0.001) (percentile sortedUsage 0.95)
           then [warn_p95] else []).
Proof.
  intros Hn. cbv zeta.
  unfold runMonteCarloSimulation, runMonteCarloSimulation_logged.
  fold (sampleCountOf params).
  destruct (Nat.eqb_spec (sampleCountOf params) 0) as [E | _]; [contradiction | ].
  cbn [fst Demand.perConnectionUsage Demand.trace Demand.usageP5 Demand.usageP95
       Demand.billPerConnection Demand.volumetricBillPerConnection Demand.usageMG
       Demand.revenue Demand.warnings].
  destruct (sampling_fold params (seq 0 (sampleCountOf params)) initialState)
    as (H1 & H2 & H3 & H4).
  cbv zeta in H1, H2, H3, H4.
  cbn [initialState usageSamples billSamples usageSum billSum app] in H1, H2, H3, H4.
  rewrite H1, H2, H3, H4.
  repeat split; try reflexivity; unfold Qdiv; ring.
Qed.

End Aggregates.

Section AggregateFacts.
Context {M : MathOps}.
Import MonteCarlo.

Lemma sampleCountOf_nonzero params :
  q0 (draws params) <> [] -> eps (draws params) <> [] -> sampleCountOf params <> 0%nat.
Proof.
  unfold sampleCountOf. intros H1 H2.
  destruct (q0 (draws params)); [congruence | ].
  destruct (eps (draws params)); [congruence | ]. cbn. lia.
Qed.

Lemma runMonteCarloSimulation_empty params :
  sampleCountOf params = 0%nat ->
  let r := runMonteCarloSimulation params in
  Demand.perConnectionUsage (Demand.trace r) = 0
  /\ Demand.usageP5 (Demand.trace r) = Some 0
  /\ Demand.usageP95 (Demand.trace r) = Some 0
  /\ Demand.warnings r = [warn_baseline].
Proof.
  intros E. cbv zeta. unfold runMonteCarloSimulation, runMonteCarloSimulation_logged.
  fold (sampleCountOf params). rewrite E. cbn. repeat split; reflexivity.
Qed.

Lemma sample_inverse (n : nat) :
  n <> 0%nat -> 0 < / inject_Z (Z.of_nat n)
  /\ inject_Z (Z.of_nat n) * / inject_Z (Z.of_nat n) == 1.
Proof.
  intros Hn.
  assert (Hpos : 0 < inject_Z (Z.of_nat n)).
  { change 0 with (inject_Z 0). rewrite <- Zlt_Qlt. lia. }
  split; [apply Qinv_lt_0_compat; exact Hpos | field; lra].
Qed.

(** A weighted total lies between the weighted bounds of its terms. *)
Lemma weighted_total_bounds (f : nat -> Q) (a b c : Q) (n : nat) :
  n <> 0%nat -> 0 <= c -> (forall i, a <= f i <= b) ->
  c * a <= Spec.sumOf f (seq 0 n) * (c / inject_Z (Z.of_nat n))
  /\ Spec.sumOf f (seq 0 n) * (c / inject_Z (Z.of_nat n)) <= c * b.
Proof.
  intros Hn Hc Hf.
  destruct (sample_inverse n Hn) as [Hi Hni].
  destruct (sumOf_bounds f a b (seq 0 n) Hf) as [Hlo Hhi].
  rewrite length_seq in Hlo, Hhi. unfold Qdiv.
  revert Hi Hni Hlo Hhi. generalize (Spec.sumOf f (seq 0 n)).
  generalize (/ inject_Z (Z.of_nat n)). generalize (inject_Z (Z.of_nat n)).
  intros m i S Hi Hni Hlo Hhi.
  assert (Ea : m * a * i == a) by (transitivity (a * (m * i)); [ring | rewrite Hni; ring]).
  assert (Eb : m * b * i == b) by (transitivity (b * (m * i)); [ring | rewrite Hni; ring]).
  assert (H1 : a <= S * i).
  { rewrite <- Ea. apply Qmult_le_compat_r; lra. }
  assert (H2 : S * i <= b).
  { rewrite <- Eb. apply Qmult_le_compat_r; lra. }
  split; nra.
Qed.

End AggregateFacts.

(** In every Monte Carlo result the reported 5th percentile, median and
    95th percentile of usage come in that order. *)
Theorem monteCarlo_percentiles_ordered (M : MathOps)
    (params : MonteCarlo.MonteCarloParams) :
  let t := Demand.trace (MonteCarlo.runMonteCarloSimulation params) in
  exists p5 p95,
    Demand.usageP5 t = Some p5 /\ Demand.usageP95 t = Some p95
    /\ p5 <= Demand.perConnectionUsage t <= p95.
Proof.
  cbv zeta. destruct (Nat.eq_dec (sampleCountOf params) 0) as [E | E].
  - destruct (runMonteCarloSimulation_empty params E) as (H1 & H2 & H3 & _).
    exists 0, 0. rewrite H1, H2, H3. repeat split; lra.
  - destruct (runMonteCarloSimulation_nonempty params E) as (H1 & H2 & H3 & _).
    rewrite H1, H2, H3. eexists. eexists. split; [reflexivity | split; [reflexivity | ]].
    destruct (sorted_samples_bounds (fun i => individualUsage params i) 0.1 60 (sampleCountOf params)
                (individualUsage_range params)) as (_ & Hs & Hlen).
    destruct (Array_sort _ _) as [| x l]; [cbn in Hlen; congruence | ].
    split; apply percentile_mono; try exact Hs; lra.
Qed.

Lemma Some_eq_inv (a b : Q) : Some a = Some b -> a = b.
Proof. intros H. injection H as H. exact H. Qed.

(** With non-empty draws every reported usage statistic lies between
    [MIN_USAGE] and [MAX_USAGE], and for a non-negative number of
    connections the total volume lies between [connections * 0.1 / 1000]
    and [connections * 60 / 1000]. *)
Theorem monteCarlo_usage_bounds (M : MathOps) (params : MonteCarlo.MonteCarloParams) :
  MonteCarlo.q0 (MonteCarlo.draws params) <> [] ->
  MonteCarlo.eps (MonteCarlo.draws params) <> [] ->
  let r := MonteCarlo.runMonteCarloSimulation params in
  0.1 <= Demand.perConnectionUsage (Demand.trace r) <= 60
  /\ (forall p, Demand.usageP5 (Demand.trace r) = Some p
                \/ Demand.usageP95 (Demand.trace r) = Some p -> 0.1 <= p <= 60)
  /\ (0 <= MonteCarlo.connections params ->
      MonteCarlo.connections params * 0.1 / 1000 <= Demand.usageMG r
      /\ Demand.usageMG r <= MonteCarlo.connections params * 60 / 1000).
Proof.
  intros Hq He. cbv zeta.
  pose proof (sampleCountOf_nonzero params Hq He) as Hn.
  destruct (runMonteCarloSimulation_nonempty params Hn) as (H1 & H2 & H3 & _ & _ & H6 & _).
  destruct (sorted_samples_bounds (fun i => individualUsage params i) 0.1 60 (sampleCountOf params)
              (individualUsage_range params)) as (Hall & _ & Hlen).
  assert (Hne : Array_sort (fun a b => a - b)
                  (map (fun i => individualUsage params i) (seq 0 (sampleCountOf params))) <> []).
  { intros E. rewrite E in Hlen. cbn in Hlen. congruence. }
  assert (Hpct : forall p, 0 <= p <= 1 ->
            0.1 <= MonteCarlo.percentile
                     (Array_sort (fun a b => a - b)
                        (map (fun i => individualUsage params i) (seq 0 (sampleCountOf params)))) p
            <= 60).
  { intros p Hp. revert Hne Hall.
    generalize (Array_sort (fun a b => a - b)
                  (map (fun i => individualUsage params i) (seq 0 (sampleCountOf params)))).
    intros [| x l] Hne Hall; [congruence | ]. apply percentile_bounded; assumption. }
  split; [rewrite H1; apply Hpct; lra | split].
  - intros p [Hp | Hp]; [rewrite H2 in Hp | rewrite H3 in Hp];
      rewrite <- (Some_eq_inv _ _ Hp); apply Hpct; lra.
  - intros Hc. rewrite H6, !div_1000.
    destruct (weighted_total_bounds (fun i => individualUsage params i) 0.1 60
                (MonteCarlo.connections params) (sampleCountOf params) Hn Hc
                (individualUsage_range params)) as [Hlo Hhi].
    split; lra.
Qed.

Lemma monteCarlo_usage_bounds_witness :
  let params := Spec.exampleParams {| MonteCarlo.q0 := [0]; MonteCarlo.eps := [0] |} in
  MonteCarlo.q0 (MonteCarlo.draws params) <> []
  /\ MonteCarlo.eps (MonteCarlo.draws params) <> []
  /\ 0.1 <= Demand.perConnectionUsage
              (Demand.trace (@MonteCarlo.runMonteCarloSimulation sampleMath params)) <= 60.
Proof.
  split; [discriminate | split; [discriminate | ]].
  apply (monteCarlo_usage_bounds sampleMath
           (Spec.exampleParams {| MonteCarlo.q0 := [0]; MonteCarlo.eps := [0] |}));
    discriminate.
Defined.

(** With non-empty draws and no negative tier price, the reported bill per
    connection is at least the base fee, the reported volumetric bill is
    exactly the bill less the base fee, and for a non-negative number of
    connections the revenue is at least [connections * baseFee]. *)
Theorem monteCarlo_bill_bounds (M : MathOps) (params : MonteCarlo.MonteCarloParams) :
  MonteCarlo.q0 (MonteCarlo.draws params) <> [] ->
  MonteCarlo.eps (MonteCarlo.draws params) <> [] ->
  Forall (fun t => 0 <= Demand.price t) (MonteCarlo.tiers params) ->
  let r := MonteCarlo.runMonteCarloSimulation params in
  MonteCarlo.baseFee params <= Demand.billPerConnection (Demand.trace r)
  /\ Demand.volumetricBillPerConnection r
     == Demand.billPerConnection (Demand.trace r) - MonteCarlo.baseFee params
  /\ (0 <= MonteCarlo.connections params ->
      MonteCarlo.connections params * MonteCarlo.baseFee params <= Demand.revenue r).
Proof.
  intros Hq He Hp. cbv zeta.
  pose proof (sampleCountOf_nonzero params Hq He) as Hn.
  destruct (runMonteCarloSimulation_nonempty params Hn)
    as (_ & _ & _ & H4 & H5 & _ & H7 & _).
  set (n := sampleCountOf params) in *.
  assert (Hbills : Forall (fun v => MonteCarlo.baseFee params <= v)
                     (Array_sort (fun a b => a - b) (map (fun i => individualBill params i) (seq 0 n)))).
  { apply (Permutation_Forall (Permutation_sym (Array_sort_perm _ _))).
    apply Forall_map, Forall_forall. intros i _. apply individualBill_ge. exact Hp. }
  assert (Hlen : List.length
                   (Array_sort (fun a b => a - b) (map (fun i => individualBill params i) (seq 0 n)))
                 = n).
  { rewrite (Permutation_length (Array_sort_perm _ _)), length_map, length_seq. reflexivity. }
  assert (Hmed : MonteCarlo.baseFee params
                 <= MonteCarlo.percentile
                      (Array_sort (fun a b => a - b)
                         (map (fun i => individualBill params i) (seq 0 n))) 0.5).
  { revert Hbills Hlen.
    generalize (Array_sort (fun a b => a - b) (map (fun i => individualBill params i) (seq 0 n))).
    generalize (MonteCarlo.baseFee params).
    intros f l Hbills Hlen. destruct l as [| x l]; [cbn in Hlen; congruence | ].
    destruct (percentile_between x l 0.5) as (w & Hw & Heq & _).
    destruct (position_range (List.length (x :: l)) 0.5) as (F1 & F2 & C1 & C2);
      [cbn; lia | lra | ].
    rewrite Forall_forall in Hbills.
    pose proof (Hbills _ (nth_In (x :: l) 0 F2)) as Hlo.
    pose proof (Hbills _ (nth_In (x :: l) 0 C2)) as Hhi.
    rewrite Heq. revert Hlo Hhi.
    generalize (nth (Z.to_nat (Qfloor (inject_Z (Z.of_nat (List.length (x :: l) - 1)) * 0.5)))
                  (x :: l) 0).
    generalize (nth (Z.to_nat (Qceiling (inject_Z (Z.of_nat (List.length (x :: l) - 1)) * 0.5)))
                  (x :: l) 0).
    intros hi lo Hlo Hhi. nra. }
  assert (Hsum : forall k,
            inject_Z (Z.of_nat k) * MonteCarlo.baseFee params
            <= Spec.sumOf (fun i => individualBill params i) (seq 0 k)).
  { induction k as [| k IH].
    - cbn. change (inject_Z 0) with 0. lra.
    - rewrite seq_S, sumOf_app, Nat2Z.inj_succ, <- Z.add_1_r, inject_Z_plus.
      change (inject_Z 1) with 1. cbn [Nat.add Spec.sumOf fold_right].
      pose proof (individualBill_ge params k Hp) as Hk.
      revert IH Hk.
      generalize (Spec.sumOf (fun i => individualBill params i) (seq 0 k)).
      generalize (individualBill params k).
      generalize (MonteCarlo.baseFee params). generalize (inject_Z (Z.of_nat k)).
      intros m f b S IH Hk. lra. }
  specialize (Hsum n).
  rewrite H4, H5, H7. clear H4 H5 H7 Hbills Hlen.
  revert Hmed Hsum.
  generalize (MonteCarlo.percentile
                (Array_sort (fun a b => a - b)
                   (map (fun i => individualBill params i) (seq 0 n))) 0.5).
  generalize (Spec.sumOf (fun i => individualBill params i) (seq 0 n)).
  generalize (MonteCarlo.baseFee params).
  intros f S med Hmed Hsum.
  split; [exact Hmed | split].
  - destruct (Math_max_spec (med - f) 0) as [[H ->] | [H ->]]; lra.
  - intros Hc.
    destruct (sample_inverse n Hn) as [Hi Hni].
    unfold Qdiv. revert Hi Hni Hsum.
    generalize (/ inject_Z (Z.of_nat n)). generalize (inject_Z (Z.of_nat n)).
    intros m i Hi Hni Hsum.
    assert (Ef : m * f * i == f) by (transitivity (f * (m * i)); [ring | rewrite Hni; ring]).
    assert (H1 : f <= S * i).
    { rewrite <- Ef. apply Qmult_le_compat_r; lra. }
    nra.
Qed.

Lemma monteCarlo_bill_bounds_witness :
  let params := Spec.exampleParams {| MonteCarlo.q0 := [0]; MonteCarlo.eps := [0] |} in
  MonteCarlo.q0 (MonteCarlo.draws params) <> []
  /\ MonteCarlo.eps (MonteCarlo.draws params) <> []
  /\ Forall (fun t => 0 <= Demand.price t) (MonteCarlo.tiers params)
  /\ 25 <= Demand.billPerConnection
             (Demand.trace (@MonteCarlo.runMonteCarloSimulation sampleMath params)).
Proof.
  assert (H1 : [0] <> @nil Q) by discriminate.
  split; [exact H1 | split; [exact H1 | split; [exact (proj2 exampleTiers_exact) | ]]].
  exact (proj1 (monteCarlo_bill_bounds sampleMath
                  (Spec.exampleParams {| MonteCarlo.q0 := [0]; MonteCarlo.eps := [0] |})
                  H1 H1 (proj2 exampleTiers_exact))).
Defined.

Section Prefix.
Context {M : MathOps}.
Import MonteCarlo.

Lemma fold_left_ext_in {A B : Type} (f g : A -> B -> A) (l : list B) :
  (forall a x, In x l -> f a x = g a x) ->
  forall a, fold_left f l a = fold_left g l a.
Proof.
  induction l as [| x l IH]; intros H a; [reflexivity | ].
  cbn [fold_left]. rewrite (H a x (or_introl eq_refl)).
  apply IH. intros a' y Hy. apply H. right. exact Hy.
Qed.

Lemma nth_firstn_lt {A : Type} (l : list A) (d : A) (n i : nat) :
  (i < n)%nat -> nth i (firstn n l) d = nth i l d.
Proof.
  revert n i. induction l as [| x l IH]; intros n i Hi.
  - rewrite firstn_nil. reflexivity.
  - destruct n as [| n]; [lia | ]. destruct i as [| i]; [reflexivity | ].
    cbn [firstn nth]. apply IH. lia.
Qed.

Lemma sampleStep_prefix params n bu st i :
  (i < n)%nat ->
  sampleStep
    (withDraws {| q0 := firstn n (q0 (draws params)); eps := firstn n (eps (draws params)) |}
       params)
    (firstn n bu) st i
  = sampleStep params bu st i.
Proof.
  intros Hi. unfold sampleStep.
  cbn [withDraws draws eps elasticityMean tiers anchor baseFee billSalience].
  rewrite !(nth_firstn_lt _ _ n i Hi). reflexivity.
Qed.

End Prefix.

(** A run reads only the first [min(q0.length, eps.length)] draws of each
    array: cutting both arrays to that length changes nothing in the
    result. *)
Theorem monteCarlo_uses_common_prefix (M : MathOps)
    (params : MonteCarlo.MonteCarloParams) :
  let n := sampleCountOf params in
  MonteCarlo.runMonteCarloSimulation
    (withDraws {| MonteCarlo.q0 := firstn n (MonteCarlo.q0 (MonteCarlo.draws params));
                  MonteCarlo.eps := firstn n (MonteCarlo.eps (MonteCarlo.draws params)) |}
       params)
  = MonteCarlo.runMonteCarloSimulation params.
Proof.
  cbv zeta. unfold MonteCarlo.runMonteCarloSimulation, MonteCarlo.runMonteCarloSimulation_logged.
  cbn [withDraws MonteCarlo.draws MonteCarlo.q0 MonteCarlo.eps MonteCarlo.anchor
       MonteCarlo.usageVar MonteCarlo.baseFee MonteCarlo.tiers MonteCarlo.connections
       MonteCarlo.validationMessage MonteCarlo.elasticityMean MonteCarlo.billSalience].
  fold (sampleCountOf params).
  assert (En : Nat.min (List.length (firstn (sampleCountOf params)
                                       (MonteCarlo.q0 (MonteCarlo.draws params))))
                 (List.length (firstn (sampleCountOf params)
                                 (MonteCarlo.eps (MonteCarlo.draws params))))
               = sampleCountOf params).
  { rewrite !length_firstn. unfold sampleCountOf. lia. }
  rewrite En.
  destruct (Nat.eqb_spec (sampleCountOf params) 0) as [E | E]; [reflexivity | ].
  cbn [fst].
  assert (Hbu : MonteCarlo.buildUsageDraws
                  (Demand.anchor_usage (MonteCarlo.anchor params))
                  (MonteCarlo.usageVar params)
                  (firstn (sampleCountOf params) (MonteCarlo.q0 (MonteCarlo.draws params)))
                = firstn (sampleCountOf params)
                    (MonteCarlo.buildUsageDraws
                       (Demand.anchor_usage (MonteCarlo.anchor params))
                       (MonteCarlo.usageVar params)
                       (MonteCarlo.q0 (MonteCarlo.draws params)))).
  { unfold MonteCarlo.buildUsageDraws. rewrite firstn_map. reflexivity. }
  rewrite Hbu.
  rewrite (fold_left_ext_in
             (MonteCarlo.sampleStep
                (withDraws
                   {| MonteCarlo.q0 := firstn (sampleCountOf params)
                                         (MonteCarlo.q0 (MonteCarlo.draws params));
                      MonteCarlo.eps := firstn (sampleCountOf params)
                                          (MonteCarlo.eps (MonteCarlo.draws params)) |}
                   params)
                (firstn (sampleCountOf params)
                   (MonteCarlo.buildUsageDraws
                      (Demand.anchor_usage (MonteCarlo.anchor params))
                      (MonteCarlo.usageVar params)
                      (MonteCarlo.q0 (MonteCarlo.draws params)))))
             (MonteCarlo.sampleStep params
                (MonteCarlo.buildUsageDraws
                   (Demand.anchor_usage (MonteCarlo.anchor params))
                   (MonteCarlo.usageVar params)
                   (MonteCarlo.q0 (MonteCarlo.draws params))))).
  - reflexivity.
  - intros st i Hi. apply sampleStep_prefix. apply in_seq in Hi. lia.
Qed.

(** The warnings of a Monte Carlo result.  The baseline warning appears
    exactly when a draw array is empty, and then it is the only one.
    Otherwise the result warns of the sign exactly when [elasticityMean]
    is non-negative, of the minimum bound exactly when the 5th percentile
    is within [0.001] of [MIN_USAGE], and of the maximum bound exactly when
    the 95th percentile is within [0.001] of [MAX_USAGE]. *)
Theorem monteCarlo_warnings (M : MathOps) (params : MonteCarlo.MonteCarloParams) :
  let r := MonteCarlo.runMonteCarloSimulation params in
  (sampleCountOf params = 0%nat -> Demand.warnings r = [MonteCarlo.warn_baseline])
  /\ (sampleCountOf params <> 0%nat ->
      ~ In MonteCarlo.warn_baseline (Demand.warnings r)
      /\ (In Demand.warn_sign (Demand.warnings r) <-> 0 <= MonteCarlo.elasticityMean params)
      /\ forall p5 p95,
           Demand.usageP5 (Demand.trace r) = Some p5 ->
           Demand.usageP95 (Demand.trace r) = Some p95 ->
           (In MonteCarlo.warn_p5 (Demand.warnings r) <-> p5 <= 0.101)
           /\ (In MonteCarlo.warn_p95 (Demand.warnings r) <-> 59.999 <= p95)).
Proof.
  cbv zeta. split.
  - intros E. apply (runMonteCarloSimulation_empty params E).
  - intros Hn.
    destruct (runMonteCarloSimulation_nonempty params Hn)
      as (_ & H2 & H3 & _ & _ & _ & _ & H8).
    rewrite H2, H3, H8. unfold Demand.MIN_USAGE, Demand.MAX_USAGE.
    generalize (MonteCarlo.percentile
                  (Array_sort (fun a b => a - b)
                     (map (fun i => individualUsage params i) (seq 0 (sampleCountOf params)))) 0.05).
    generalize (MonteCarlo.percentile
                  (Array_sort (fun a b => a - b)
                     (map (fun i => individualUsage params i) (seq 0 (sampleCountOf params)))) 0.95).
    intros q95 q5.
    assert (D1 : Demand.warn_sign <> MonteCarlo.warn_p5) by discriminate.
    assert (D2 : Demand.warn_sign <> MonteCarlo.warn_p95) by discriminate.
    assert (D3 : MonteCarlo.warn_p5 <> MonteCarlo.warn_p95) by discriminate.
    assert (D4 : Demand.warn_sign <> MonteCarlo.warn_baseline) by discriminate.
    assert (D5 : MonteCarlo.warn_p5 <> MonteCarlo.warn_baseline) by discriminate.
    assert (D6 : MonteCarlo.warn_p95 <> MonteCarlo.warn_baseline) by discriminate.
    destruct (Qle_bool 0 (MonteCarlo.elasticityMean params)) eqn:E1;
      destruct (Qle_bool q5 (0.1 + 0.001)) eqn:E2;
      destruct (Qle_bool (60 - 0.001) q95) eqn:E3;
      reflect_cmp; cbn [app In];
      (split; [intros H; repeat (destruct H as [H | H]; try congruence); exact H | ]);
      (split; [split; intros H; [ | solve [auto | exfalso; lra]];
               repeat (destruct H as [H | H]; try congruence; try lra); lra | ]);
      intros p5 p95 [= <-] [= <-];
      (split; split; intros H; [ | solve [auto | exfalso; lra] | | solve [auto | exfalso; lra]];
       repeat (destruct H as [H | H]; try congruence; try lra); lra).
Qed.

(** ** Chart helpers *)

Section ActiveTier.
Import Demand Charts.

Lemma last_nth {A : Type} (l : list A) (d : A) :
  last l d = nth (List.length l - 1) l d.
Proof.
  induction l as [| x l IH]; [reflexivity | ].
  destruct l as [| y l]; [reflexivity | ].
  change (last (x :: y :: l) d) with (last (y :: l) d). rewrite IH.
  cbn [List.length Nat.sub]. rewrite !Nat.sub_0_r. reflexivity.
Qed.

(** The two loops stop at the same tier. *)
Lemma activeTierLoop_marginalLoop usage d ts : forall i,
  match activeTierLoop usage i ts, marginalLoop usage ts with
  | Some j, Some p =>
      exists k, j = (i + k)%nat /\ (k < List.length ts)%nat /\ p = price (nth k ts d)
  | None, None => True
  | _, _ => False
  end.
Proof.
  induction ts as [| t ts IH]; intros i; cbn [activeTierLoop marginalLoop]; [exact I | ].
  destruct (Qle_bool (lower t) usage
            && match upper t with Some u => Qlt_bool usage u | None => true end).
  - exists 0%nat. cbn. split; [lia | split; [lia | reflexivity]].
  - specialize (IH (S i)).
    destruct (activeTierLoop usage (S i) ts), (marginalLoop usage ts); try exact IH.
    destruct IH as (k & -> & Hk & ->). exists (S k). cbn. split; [lia | split; [lia | reflexivity]].
Qed.

End ActiveTier.

(** The tier that [activeTierIndex] points at is the tier whose price
    [computeMarginalPrice] returns, and the index is inside a non-empty
    tier list; on an empty list the index is [0] and the price [0]. *)
Theorem activeTierIndex_marginalPrice (ts : list Demand.TierDefinition) (usage : Q)
    (d : Demand.TierDefinition) :
  (ts <> [] ->
   (Charts.activeTierIndex ts usage < List.length ts)%nat
   /\ Demand.price (nth (Charts.activeTierIndex ts usage) ts d)
      = Demand.computeMarginalPrice usage ts)
  /\ (ts = [] ->
      Charts.activeTierIndex ts usage = 0%nat /\ Demand.computeMarginalPrice usage ts = 0).
Proof.
  split; [ | intros ->; split; reflexivity].
  intros Hne. unfold Charts.activeTierIndex, Demand.computeMarginalPrice.
  pose proof (activeTierLoop_marginalLoop usage d ts 0) as H.
  destruct (Charts.activeTierLoop usage 0 ts), (Demand.marginalLoop usage ts);
    try contradiction.
  - destruct H as (k & -> & Hk & ->). split; [lia | reflexivity].
  - destruct ts as [| t0 ts']; [congruence | ].
    split; [cbn; lia | ].
    rewrite (last_nth (t0 :: ts') t0). cbn [List.length Nat.sub Nat.max].
    rewrite Nat.sub_0_r. f_equal. apply nth_indep. cbn. lia.
Qed.

Lemma activeTierIndex_marginalPrice_witness :
  Spec.exampleTiers <> []
  /\ Demand.price (nth (Charts.activeTierIndex Spec.exampleTiers 7) Spec.exampleTiers
                     (Demand.Build_TierDefinition 0 None 0))
     = Demand.computeMarginalPrice 7 Spec.exampleTiers.
Proof.
  assert (Hne : Spec.exampleTiers <> []) by discriminate.
  split; [exact Hne | ].
  exact (proj2 (proj1 (activeTierIndex_marginalPrice Spec.exampleTiers 7
                         (Demand.Build_TierDefinition 0 None 0)) Hne)).
Defined.

Section DecileShape.
Import Analytics.

(** The outer loop keeps [totalDeltaMG] equal to the sum of the [deltaMG]
    pushed so far, and labels the records in order. *)
Lemma decileStep_invariant q0 q1 indices s w l : forall st,
  Spec.sumOf deltaMG (fst st) == snd st ->
  Spec.sumOf deltaMG (fst (fold_left (decileStep q0 q1 indices s w) l st))
  == snd (fold_left (decileStep q0 q1 indices s w) l st)
  /\ map decile (fst (fold_left (decileStep q0 q1 indices s w) l st))
     = map decile (fst st) ++ map decileLabel l.
Proof.
  induction l as [| d l IH]; intros st Hst; cbn [fold_left].
  - split; [exact Hst | rewrite app_nil_r; reflexivity].
  - destruct (IH (decileStep q0 q1 indices s w st d)) as [H1 H2].
    + unfold decileStep. cbn [fst snd].
      rewrite sumOf_app, Hst. cbn [Spec.sumOf fold_right deltaMG]. ring.
    + split; [exact H1 | ].
      rewrite H2. unfold decileStep. cbn [fst].
      rewrite map_app, <- app_assoc. reflexivity.
Qed.

(** The second pass: dividing by the total, or by [1] when the total is [0]. *)
Lemma shares_shape (impacts : list DecileImpact) (total : Q) :
  Spec.sumOf deltaMG impacts == total ->
  let out :=
    map (fun impact =>
           {| decile := decile impact;
              deltaMG := deltaMG impact;
              pctOfTotal := deltaMG impact / (if Qeq_bool total 0 then 1 else total) |})
      impacts in
  map decile out = map decile impacts
  /\ Spec.sumOf deltaMG out == total
  /\ (~ total == 0 -> Spec.sumOf pctOfTotal out == 1)
  /\ (total == 0 -> Spec.sumOf pctOfTotal out == 0).
Proof.
  intros Hsum. cbv zeta.
  rewrite !map_map, !sumOf_map. cbn [decile deltaMG pctOfTotal].
  split; [reflexivity | split; [exact Hsum | ]].
  assert (Hdiv : forall dn,
            Spec.sumOf (fun impact => deltaMG impact / dn) impacts
            == Spec.sumOf deltaMG impacts * / dn).
  { clear. intros dn. induction impacts as [| x l IH]; [cbn [Spec.sumOf fold_right]; ring | ].
    rewrite !sumOf_cons, IH. unfold Qdiv. ring. }
  split.
  - intros Hnz.
    assert (E : Qeq_bool total 0 = false).
    { destruct (Qeq_bool total 0) eqn:E; [ | reflexivity].
      apply Qeq_bool_iff in E. contradiction. }
    rewrite E, Hdiv, Hsum. field. exact Hnz.
  - intros Hz.
    assert (E : Qeq_bool total 0 = true) by (apply Qeq_bool_iff; exact Hz).
    rewrite E, Hdiv, Hsum, Hz. field.
Qed.

End DecileShape.

(** [computeDecileImpacts] always returns ten records, labelled [D1] to
    [D10] in that order.  Their shares of the total add up to [1] when the
    [deltaMG] do not cancel out, and to [0] when they do; with no sample
    or no connection every figure is [0]. *)
Theorem decileImpacts_shape (q0 q1 : list Q) (connections : Q) :
  let impacts := Analytics.computeDecileImpacts q0 q1 connections in
  map Analytics.decile impacts
  = ["D1"; "D2"; "D3"; "D4"; "D5"; "D6"; "D7"; "D8"; "D9"; "D10"]%string
  /\ (~ Spec.sumDeltaMG impacts == 0 -> Spec.sumOf Analytics.pctOfTotal impacts == 1)
  /\ (Spec.sumDeltaMG impacts == 0 -> Spec.sumOf Analytics.pctOfTotal impacts == 0)
  /\ (q0 = [] \/ q1 = [] \/ connections == 0 ->
      Forall (fun impact => Analytics.deltaMG impact = 0 /\ Analytics.pctOfTotal impact = 0)
        impacts).
Proof.
  cbv zeta. unfold Analytics.computeDecileImpacts, Spec.sumDeltaMG.
  set (s := Nat.min (List.length q0) (List.length q1)).
  destruct ((s =? 0)%nat || Qeq_bool connections 0) eqn:Hdeg.
  - split; [reflexivity | split; [ | split]].
    + intros H. elim H. cbn. ring.
    + intros _. cbn. ring.
    + intros _. repeat constructor.
  - apply orb_false_iff in Hdeg. destruct Hdeg as [Hs Hc].
    destruct (decileStep_invariant q0 q1
                (Array_sort (fun a b => nth a q0 0 - nth b q0 0) (seq 0 s)) s
                (connections / inject_Z (Z.of_nat s) / 1000) (seq 0 10) ([], 0))
      as [Hsum Hlab]; [reflexivity | ].
    revert Hsum Hlab.
    generalize (fold_left
                  (Analytics.decileStep q0 q1
                     (Array_sort (fun a b => nth a q0 0 - nth b q0 0) (seq 0 s)) s
                     (connections / inject_Z (Z.of_nat s) / 1000)) (seq 0 10) ([], 0)).
    intros st Hsum Hlab.
    destruct (shares_shape (fst st) (snd st) Hsum) as (H1 & H2 & H3 & H4).
    cbv zeta in H1, H2, H3, H4.
    split; [rewrite H1, Hlab; reflexivity | split; [ | split]].
    + intros Hnz. apply H3. intros Hz. apply Hnz. rewrite H2. exact Hz.
    + intros Hz. apply H4. rewrite <- H2. exact Hz.
    + intros [-> | [-> | Hc0]]; exfalso.
      * unfold s in Hs. cbn in Hs. discriminate.
      * unfold s in Hs. rewrite Nat.min_0_r in Hs. discriminate.
      * apply Qeq_bool_iff in Hc0. congruence.
Qed.

Section TierKeys.
Import Demand Charts.

Lemma decimal_inj (n m : nat) : decimal n = decimal m -> n = m.
Proof.
  unfold decimal. intros H.
  assert (E : Some (Nat.to_uint n) = Some (Nat.to_uint m)).
  { rewrite <- !NilEmpty.usu. rewrite H. reflexivity. }
  injection E as E.
  rewrite <- (DecimalNat.Unsigned.of_to n), <- (DecimalNat.Unsigned.of_to m), E.
  reflexivity.
Qed.

Lemma In_combine_seq {A : Type} (l : list A) : forall a i x,
  In (i, x) (combine (seq a (List.length l)) l) ->
  (a <= i)%nat /\ nth_error l (i - a) = Some x.
Proof.
  induction l as [| y l IH]; intros a i x H; [contradiction | ].
  cbn [List.length seq combine] in H. destruct H as [H | H].
  - injection H as <- <-. rewrite Nat.sub_diag. split; [lia | reflexivity].
  - destruct (IH (S a) i x H) as [Hle Hnth]. split; [lia | ].
    replace (i - a)%nat with (S (i - S a)) by lia. exact Hnth.
Qed.

Lemma NoDup_combine_seq {A : Type} (l : list A) : forall a,
  NoDup (combine (seq a (List.length l)) l).
Proof.
  induction l as [| y l IH]; intros a; cbn [List.length seq combine]; constructor.
  - intros H. apply In_combine_seq in H. lia.
  - apply IH.
Qed.

Lemma nth_error_combine_seq {A : Type} (l : list A) : forall a i x,
  nth_error l i = Some x ->
  nth_error (combine (seq a (List.length l)) l) i = Some ((a + i)%nat, x).
Proof.
  induction l as [| y l IH]; intros a i x Hi; [destruct i; discriminate | ].
  destruct i as [| i]; cbn [List.length seq combine nth_error] in *.
  - injection Hi as ->. rewrite Nat.add_0_r. reflexivity.
  - rewrite (IH (S a) i x Hi). f_equal. f_equal. lia.
Qed.

(** The key of the tier at [idx] in a list of [n] tiers. *)
Lemma tierKey_inj (n : nat) (i j : nat) (t t' : TierDefinition) :
  (if (i =? n - 1)%nat && match upper t with None => true | Some _ => false end
   then "Punitive"%string else String.append "Tier " (decimal (i + 1)))
  = (if (j =? n - 1)%nat && match upper t' with None => true | Some _ => false end
     then "Punitive"%string else String.append "Tier " (decimal (j + 1))) ->
  i = j.
Proof.
  destruct ((i =? n - 1)%nat && _) eqn:Ei; destruct ((j =? n - 1)%nat && _) eqn:Ej.
  - intros _. apply andb_true_iff in Ei, Ej.
    destruct Ei as [Ei _], Ej as [Ej _]. apply Nat.eqb_eq in Ei, Ej. lia.
  - cbn. discriminate.
  - cbn. discriminate.
  - cbn. intros H. injection H as H. apply decimal_inj in H. lia.
Qed.

End TierKeys.

(** [tierKeys] gives one key per tier and no key twice; a key is
    ["Punitive"] exactly for an unbounded last tier, and ["Tier k"], with
    [k] counted from one, otherwise. *)
Theorem tierKeys_distinct (ts : list Demand.TierDefinition) :
  List.length (Charts.tierKeys ts) = List.length ts
  /\ NoDup (Charts.tierKeys ts)
  /\ forall i tier, nth_error ts i = Some tier ->
       nth_error (Charts.tierKeys ts) i
       = Some (if (i =? List.length ts - 1)%nat
                  && match Demand.upper tier with None => true | Some _ => false end
               then "Punitive"%string
               else String.append "Tier " (Charts.decimal (i + 1))).
Proof.
  unfold Charts.tierKeys. split; [ | split].
  - rewrite length_map, length_combine, length_seq. lia.
  - apply NoDup_map_NoDup_ForallPairs; [ | apply NoDup_combine_seq].
    intros [i t] [j t'] Hi Hj Heq. cbn [fst snd] in Heq.
    apply tierKey_inj in Heq. subst j.
    apply In_combine_seq in Hi, Hj. destruct Hi as [_ Hi], Hj as [_ Hj].
    rewrite Hi in Hj. congruence.
  - intros i tier Hi. rewrite nth_error_map.
    rewrite (nth_error_combine_seq ts 0 i tier Hi).
    cbn [Nat.add fst snd]. reflexivity.
Qed.

(** The finite upper bounds of a contiguous tier list are all its bounds
    but the last tier's, in strictly ascending order. *)
Theorem tierBreaks_contiguous (ts : list Demand.TierDefinition) (from : Q) :
  Spec.contiguousFrom from ts ->
  List.length (Charts.tierBreaks ts) = (List.length ts - 1)%nat
  /\ StronglySorted Qlt (Charts.tierBreaks ts)
  /\ Forall (fun u => from < u) (Charts.tierBreaks ts).
Proof.
  revert from. induction ts as [| t ts IH]; intros from H; [contradiction | ].
  apply contiguousFrom_inv in H.
  destruct H as (Hl & [[Hup ->] | (up & Hup & Hne & Hlt & H)]);
    cbn [Charts.tierBreaks fold_right]; rewrite Hup.
  - split; [reflexivity | split; constructor].
  - destruct (IH up H) as (Hlen & Hs & Hall).
    fold (Charts.tierBreaks ts).
    split; [ | split].
    + cbn [List.length]. rewrite Hlen. destruct ts; [congruence | cbn; lia].
    + constructor; assumption.
    + constructor; [lra | ].
      eapply Forall_impl; [ | exact Hall]. intros u Hu. cbv beta in *. lra.
Qed.

Lemma tierBreaks_contiguous_witness :
  Spec.contiguousFrom 0 Spec.exampleTiers
  /\ List.length (Charts.tierBreaks Spec.exampleTiers) = 2%nat.
Proof.
  split; [exact (proj1 exampleTiers_exact) | ].
  exact (proj1 (tierBreaks_contiguous Spec.exampleTiers 0 (proj1 exampleTiers_exact))).
Defined.
